(** * lmdbcols: typed, zero-copy collections over an embedded key-value store

    A shallow embedding of [include/lmdbcols.hpp] and the properties of its
    layout predicate, padding adapter, span type and collection wrappers.

    Conventions.
    - [size_t] and [uintptr_t] are 64-bit: they are modelled as [Z] with the
      wrap-around of the multiplication written out ([wrap64]).
    - A C++ type is represented by the facts the library asks of it
      ([sizeof], [alignof], the [<type_traits>] predicates); an object by its
      object representation, a [list byte] of length [sizeof].
    - [assert] is modelled as active: a failing assertion stops the program
      ([None] for pure code, [Abort] for code running in a transaction). *)

From Stdlib Require Import ZArith Lia.
From Stdlib.Strings Require Import Byte.
From stdpp Require Import base option list gmap strings fin_maps.

Local Open Scope Z_scope.

(* ====================================================================== *)
(** ** C++ types as layout descriptors *)
(* ====================================================================== *)

Record CType := mkCType {
  sizeof : Z;                                  (* sizeof(T)  *)
  alignof : Z;                                 (* alignof(T) *)
  is_trivially_copyable : bool;                (* std::is_trivially_copyable *)
  is_trivially_default_constructible : bool;   (* trivial default constructor *)
  is_standard_layout : bool                    (* std::is_standard_layout *)
}.

(** What the language guarantees of every complete object type on the
    target: a positive size that fits [size_t], a positive alignment that
    divides the size. *)
Definition wf_type (T : CType) : Prop :=
  0 < sizeof T < 2 ^ 64 /\ 0 < alignof T /\ sizeof T mod alignof T = 0.

(** [std::is_trivial]: trivially copyable with a trivial default constructor. *)
Definition is_trivial (T : CType) : bool :=
  is_trivially_copyable T && is_trivially_default_constructible T.

(** [std::is_pod]: trivial and standard-layout. *)
Definition is_pod (T : CType) : bool :=
  is_trivial T && is_standard_layout T.

(** Some concrete types used by the library's own tests. *)
Definition char_t : CType := mkCType 1 1 true true true.
Definition unsigned_char : CType := mkCType 1 1 true true true.
Definition int32_t : CType := mkCType 4 4 true true true.
Definition uint32_t : CType := mkCType 4 4 true true true.
Definition uint64_t : CType := mkCType 8 8 true true true.
Definition double_t : CType := mkCType 8 8 true true true.
(** [struct TestStruct1 { int32_t i; };] *)
Definition TestStruct1 : CType := mkCType 4 4 true true true.
(** [struct Counter { int64_t n; Counter() : n(0) {} };] : the user-provided
    default constructor makes it non-trivial, hence not POD, although it
    stays trivially copyable. *)
Definition Counter : CType := mkCType 8 8 true false true.
(** [long double], 16 bytes aligned at 16 on the target. *)
Definition long_double_t : CType := mkCType 16 16 true true true.

(** [size_t] arithmetic wraps modulo 2^64. *)
Definition wrap64 (z : Z) : Z := z mod 2 ^ 64.

(** C's [!n] on an integer. *)
Definition lnot (n : Z) : bool := n =? 0.

(** [s.c_str()] as the C string a callee reads: the characters before the
    first NUL. *)
Fixpoint c_str (s : string) : string :=
  match s with
  | EmptyString => EmptyString
  | String c rest =>
      if Ascii.eqb c Ascii.zero then EmptyString else String c (c_str rest)
  end.

(* ====================================================================== *)
(** ** EightPadded *)
(* ====================================================================== *)

(** An offset or size [s] rounded up to the next multiple of the alignment
    [a] (the rule the environment wrapper also uses for the map size). *)
Definition pad_to (a s : Z) : Z :=
  if s mod a =? 0 then s else s + a - s mod a.

(** The spec's [ceil(s/8)*8]. *)
Definition ceil_div (n d : Z) : Z := (n + d - 1) / d.
Definition spec_padded_size (s : Z) : Z := ceil_div s 8 * 8.

(** Alignments are powers of two and divide the size of the type; what the
    layout of the wrapper needs of this is that a type is aligned at most
    8, or at a multiple of 8 that divides its size. *)
Definition align_ok (T : CType) : Prop :=
  alignof T <= 8 \/ (alignof T mod 8 = 0 /\ sizeof T mod alignof T = 0).

(** The layout of a standard-layout class declared [alignas(a)] with the
    non-static data members [ms], in declaration order: every member lies
    at the next offset that is a multiple of its alignment; the class is
    aligned as strictly as [alignas(a)] and each of its members ask for
    ([alignas] raises an alignment and does not lower the alignment of a
    member that is aligned more strictly: the compiler the library is built
    with keeps the member's alignment then); the size of the class is the
    end of its last member rounded up to the alignment of the class. *)
Definition class_alignof (a : Z) (ms : list CType) : Z :=
  fold_left (fun acc m => Z.max acc (alignof m)) ms a.
Definition class_dsize (ms : list CType) : Z :=
  fold_left (fun off m => pad_to (alignof m) off + sizeof m) ms 0.
Definition class_sizeof (a : Z) (ms : list CType) : Z :=
  pad_to (class_alignof a ms) (class_dsize ms).

(** [template <typename T> class alignas(8) EightPadded { T _data; ... };]

    The class has the single member [_data] and is declared [alignas(8)].
    The defaulted default constructor, the single private member and the
    absence of virtual members make the wrapper inherit the three traits
    of [T]. *)
Definition EightPadded (T : CType) : CType :=
  {| sizeof := class_sizeof 8 [T];
     alignof := class_alignof 8 [T];
     is_trivially_copyable := is_trivially_copyable T;
     is_trivially_default_constructible :=
       is_trivially_default_constructible T;
     is_standard_layout := is_standard_layout T |}.

(** [memset(p, c, n)] on the object representation that starts at [p]. *)
Definition memset (obj : list byte) (c : byte) (n : Z) : list byte :=
  replicate (Z.to_nat n) c ++ drop (Z.to_nat n) obj.

(** [_data = d;] : the member lives at offset 0 and the assignment of a
    trivially copyable [T] writes [sizeof(T)] bytes there. *)
Definition assign_data (T : CType) (this d : list byte) : list byte :=
  take (Z.to_nat (sizeof T)) d ++ drop (Z.to_nat (sizeof T)) this.

(** [explicit EightPadded(T d) { memset(this, 0, sizeof( *this)); _data = d; }]
    [P] is the instantiated class and [this] the storage the object is
    constructed in, whose previous contents are arbitrary. *)
Definition EightPadded_ctor (T P : CType) (this d : list byte) : list byte :=
  let this := memset this x00 (sizeof P) in
  assign_data T this d.

(** [T& get() {return _data;}] *)
Definition EightPadded_get (T : CType) (this : list byte) : list byte :=
  take (Z.to_nat (sizeof T)) this.
(** [const T& cget() const {return _data;}] *)
Definition EightPadded_cget (T : CType) (this : list byte) : list byte :=
  take (Z.to_nat (sizeof T)) this.
(** [const T& operator*() const {return _data;}] *)
Definition EightPadded_deref (T : CType) (this : list byte) : list byte :=
  take (Z.to_nat (sizeof T)) this.

(* ====================================================================== *)
(** ** is_valid_keyval_type *)
(* ====================================================================== *)

(** [static constexpr bool value = std::is_pod<T>::value && !(sizeof(T) % 8);] *)
Definition is_valid_keyval_type (T : CType) : bool :=
  is_pod T && lnot (sizeof T mod 8).

(* ====================================================================== *)
(** ** Pointers into read-only memory *)
(* ====================================================================== *)

(** A pointer to const data is its address together with the bytes of the
    object it points into, from that address to the end of the object.  The
    memory a span refers to is never written while the span is alive, so the
    bytes can travel with the pointer. *)
Record ptr := mkPtr { p_addr : Z; p_bytes : list byte }.

Definition nullptr : ptr := mkPtr 0 [].

(** [p + n] for [const T *p]. *)
Definition ptr_add (T : CType) (p : ptr) (n : Z) : ptr :=
  mkPtr (wrap64 (p_addr p + n * sizeof T))
        (drop (Z.to_nat (n * sizeof T)) (p_bytes p)).

(** [e - b] for [const T *b, *e]. *)
Definition ptr_diff (T : CType) (e b : ptr) : Z :=
  (p_addr e - p_addr b) / sizeof T.

(** The object of type [T] a pointer (or reference) designates. *)
Definition deref (T : CType) (p : ptr) : list byte :=
  take (Z.to_nat (sizeof T)) (p_bytes p).

(** [struct MDB_val { size_t mv_size; void *mv_data; };] *)
Record MDB_val := mkVal { mv_size : Z; mv_data : ptr }.

(* ====================================================================== *)
(** ** LmdbSpan *)
(* ====================================================================== *)

(** [const T *m_data; size_t m_size;] : the element type is the template
    parameter, passed to each operation. *)
Record LmdbSpan := mkSpan { m_data : ptr; m_size : Z }.

(** [assert(c)] in code without other effects. *)
Definition assert (c : bool) : option unit := if c then Some tt else None.

(** [return !( reinterpret_cast<std::uintptr_t>(ptr) % alignof(TTarg) );] *)
Definition is_aligned_for (TTarg : CType) (p : ptr) : bool :=
  lnot (p_addr p mod alignof TTarg).

Definition size (sp : LmdbSpan) : Z := m_size sp.
Definition begin_ (sp : LmdbSpan) : ptr := m_data sp.

(** [explicit LmdbSpan(const T *ptr, size_t count)] *)
Definition LmdbSpan_ptr_count (p : ptr) (count : Z) : LmdbSpan :=
  mkSpan p count.

(** [explicit LmdbSpan(const T *beg, const T *end)] *)
Definition LmdbSpan_range (T : CType) (beg e : ptr) : option LmdbSpan :=
  _ ← assert (0 <=? ptr_diff T e beg);
  Some (mkSpan beg (ptr_diff T e beg)).

(** [explicit LmdbSpan(MDB_val mv)] *)
Definition LmdbSpan_MDB_val (T : CType) (mv : MDB_val) : option LmdbSpan :=
  let sp := mkSpan (mv_data mv) (mv_size mv / sizeof T) in
  _ ← assert (lnot (mv_size mv mod sizeof T));
  _ ← assert (is_aligned_for T (m_data sp));
  Some sp.

(** [static LmdbSpan<T> makeNull() {return LmdbSpan<T>{nullptr, nullptr};}] *)
Definition makeNull (T : CType) : option LmdbSpan :=
  LmdbSpan_range T nullptr nullptr.

(** [bool isNull() const {return m_data == nullptr;}] *)
Definition isNull (sp : LmdbSpan) : bool := p_addr (m_data sp) =? 0.

(** [const T& operator[](size_t n) const] *)
Definition index (T : CType) (sp : LmdbSpan) (n : Z) : option ptr :=
  _ ← assert (n <? m_size sp);
  Some (ptr_add T (m_data sp) n).

(** [template <typename TNew> const TNew& asType() const] *)
Definition asType (T TNew : CType) (sp : LmdbSpan) : option ptr :=
  _ ← assert (sizeof TNew =? wrap64 (sizeof T * size sp));
  _ ← assert (is_aligned_for TNew (m_data sp));
  Some (begin_ sp).

(** [template <typename TNew> LmdbSpan<TNew> asSpan()] *)
Definition asSpan (T TNew : CType) (sp : LmdbSpan) : option LmdbSpan :=
  _ ← assert (lnot (wrap64 (sizeof T * m_size sp) mod sizeof TNew));
  _ ← assert (is_aligned_for TNew (m_data sp));
  Some (mkSpan (m_data sp) (m_size sp / sizeof TNew)).

(** [LmdbSpan<T> subSpan(size_t offset, size_t count) const] *)
Definition subSpan (T : CType) (sp : LmdbSpan) (offset count : Z)
  : option LmdbSpan :=
  _ ← assert (wrap64 (offset + count) <=? size sp);
  Some (mkSpan (ptr_add T (begin_ sp) offset) count).

(** What the spec asks of the reinterpretation: the byte length of the
    source divided by the size of the target element. *)
Definition spec_asSpan_size (T TNew : CType) (sp : LmdbSpan) : Z :=
  m_size sp * sizeof T / sizeof TNew.

(* ====================================================================== *)
(** ** The store's C interface and its C++ exceptions *)
(* ====================================================================== *)

(** Modelled from the spec: [lmdb.h] is not part of the sources.  §6 names a
    success code, a distinguished not-found code and other failure codes,
    and §4.5 table-creation flags; the numbers are those of the store's
    public header. *)
Definition MDB_SUCCESS : Z := 0.
Definition MDB_NOTFOUND : Z := -30798.
Definition MDB_BAD_VALSIZE : Z := -30781.
Definition MDB_MAP_FULL : Z := -30792.
Definition MDB_DBS_FULL : Z := -30791.
Definition EACCES : Z := 13.
Definition EINVAL : Z := 22.
Definition MDB_CREATE : Z := 0x40000.
Definition MDB_RDONLY : Z := 0x20000.

(** Modelled from the spec: [lmdb++.h] is not part of the sources.  §7 has
    two kinds of failure that reach the caller: not-found, a distinct and
    catchable condition, and every other backend failure, which carries the
    store's code unchanged.  Both carry the origin string given at the
    throw site. *)
Inductive exn :=
| not_found_error (origin : string)
| runtime_error (origin : string) (rc : Z).

(** Modelled from the spec: [lmdb::error::raise(origin, rc)] throws the
    exception that belongs to the code. *)
Definition error_raise (origin : string) (rc : Z) : exn :=
  if rc =? MDB_NOTFOUND then not_found_error origin
  else runtime_error origin rc.

Definition is_not_found (e : exn) : bool :=
  match e with not_found_error _ => true | runtime_error _ _ => false end.

(** The outcome of a call that runs in a transaction: a value, a C++
    exception (the transaction keeps what was done before the throw), or a
    failed assertion, which ends the process. *)
Inductive result (S A : Type) :=
| Ok (a : A) (s : S)
| Throw (e : exn) (s : S)
| Abort.
Arguments Ok {S A} a s.
Arguments Throw {S A} e s.
Arguments Abort {S A}.

(** The transaction a call leaves behind, when the process survives it. *)
Definition txn_after {S A} (r : result S A) : option S :=
  match r with Ok _ s => Some s | Throw _ s => Some s | Abort => None end.

Definition M (S A : Type) : Type := S -> result S A.

Definition ret {S A} (a : A) : M S A := fun s => Ok a s.
Definition bind {S A B} (c : M S A) (k : A -> M S B) : M S B :=
  fun s => match c s with
           | Ok a s' => k a s'
           | Throw e s' => Throw e s'
           | Abort => Abort
           end.
Definition throw {S A} (e : exn) : M S A := fun s => Throw e s.
Definition gets {S A} (f : S -> A) : M S A := fun s => Ok (f s) s.
(** Pure code with assertions, run inside a transaction. *)
Definition asserted {S A} (o : option A) : M S A :=
  fun s => match o with Some a => Ok a s | None => Abort end.

Notation "x <~ c ; k" := (bind c (fun x => k))
  (at level 20, c at level 100, k at level 200, only parsing).
Notation "' pat <~ c ; k" := (bind c (fun x => match x with pat => k end))
  (at level 20, pat pattern, c at level 100, k at level 200, only parsing).

(** The part of the store the wrappers call: environments, transactions,
    table handles and the three byte-level operations.  [mdb_get] leaves the
    transaction as it is; [mdb_dbi_open] and [mdb_put] may change it. *)
Class Backend := {
  env : Type;
  txn : Type;
  dbi_t : Type;
  txn_begin : env -> Z -> txn;
  txn_commit : txn -> env;
  mdb_dbi_open : txn -> string -> Z -> Z * dbi_t * txn;
  mdb_put : txn -> dbi_t -> MDB_val -> MDB_val -> Z -> Z * txn;
  mdb_get : txn -> dbi_t -> MDB_val -> Z * MDB_val
}.

(** The store's documented contract for handles: opening a table that is
    already open in the transaction returns the same handle and changes
    nothing. *)
Class BackendLaws (B : Backend) : Prop := {
  mdb_dbi_open_again : forall t name flags h t',
    mdb_dbi_open t name flags = (MDB_SUCCESS, h, t') ->
    mdb_dbi_open t' name flags = (MDB_SUCCESS, h, t')
}.

Section Wrappers.
Context {B : Backend}.

(** Modelled from the spec: [lmdb::dbi::open] of [lmdb++.h] calls
    [mdb_dbi_open] and raises on any code but success. *)
Definition lmdb_dbi_open (name : string) (flags : Z) : M txn dbi_t :=
  fun t => let '(rc, h, t') := mdb_dbi_open t name flags in
           if rc =? MDB_SUCCESS then Ok h t'
           else Throw (error_raise "mdb_dbi_open" rc) t'.

(* -------------------------------------------------------------------- *)
(** *** DatabaseEnvironment *)

(** [lmdb::txn::begin(m_env, nullptr)] *)
Definition openWriteTxn (e : env) : txn := txn_begin e 0.
(** [lmdb::txn::begin(m_env, nullptr, MDB_RDONLY)] *)
Definition openReadTxn (e : env) : txn := txn_begin e MDB_RDONLY.

(* -------------------------------------------------------------------- *)
(** *** DbiWrapper *)

Definition default_dbiflags : Z := MDB_CREATE.

Record DbiWrapper := mkDbiWrapper { m_dbName : string; m_dbiflags : Z }.

(** [explicit DbiWrapper(const string &dbName,
                         const unsigned int dbiflags=default_dbiflags)] *)
Definition DbiWrapper_new (dbName : string) : DbiWrapper :=
  mkDbiWrapper dbName default_dbiflags.

(** [lmdb::dbi dbi(lmdb::txn &txn)] : the store gets [m_dbName.c_str()]. *)
Definition dbi (w : DbiWrapper) : M txn dbi_t :=
  lmdb_dbi_open (c_str (m_dbName w)) (m_dbiflags w).

(** [template <typename K, typename V>
     void put(lmdb::txn &txn, const K &key, const V &val)] *)
Definition DbiWrapper_put (K V : CType) (w : DbiWrapper) (key val : ptr)
  : M txn unit :=
  let mkey := mkVal (sizeof K) key in
  let mval := mkVal (sizeof V) val in
  h <~ dbi w;
  fun t => let '(rc, t') := mdb_put t h mkey mval 0 in
           if negb (rc =? 0) then Throw (error_raise "DbiWrapper PUT error" rc) t'
           else Ok tt t'.

(** [template <typename K, typename VElem>
     void putArray(lmdb::txn &txn, const K &key, const VElem *dat, size_t count)] *)
Definition DbiWrapper_putArray (K VElem : CType) (w : DbiWrapper)
    (key dat : ptr) (count : Z) : M txn unit :=
  let mkey := mkVal (sizeof K) key in
  let mval := mkVal (wrap64 (sizeof VElem * count)) dat in
  h <~ dbi w;
  fun t => let '(rc, t') := mdb_put t h mkey mval 0 in
           if negb (rc =? 0)
           then Throw (error_raise "DbiWraper PUT ARRAY error" rc) t'
           else Ok tt t'.

(** [template <typename K>
     LmdbSpan<unsigned char> get(lmdb::txn &txn, const K &key)] *)
Definition DbiWrapper_get (K : CType) (w : DbiWrapper) (key : ptr)
  : M txn LmdbSpan :=
  let mkey := mkVal (sizeof K) key in
  h <~ dbi w;
  '(rc, mval) <~ gets (fun t => mdb_get t h mkey);
  if negb (rc =? 0) then throw (error_raise "DbiWrapper GET error" rc)
  else asserted (LmdbSpan_MDB_val unsigned_char mval).

(** [template <typename K> bool exists(lmdb::txn &txn, const K &key)] *)
Definition DbiWrapper_exists (K : CType) (w : DbiWrapper) (key : ptr)
  : M txn bool :=
  let mkey := mkVal (sizeof K) key in
  h <~ dbi w;
  '(rc, mval) <~ gets (fun t => mdb_get t h mkey);
  myDbi <~ dbi w;
  if rc =? MDB_NOTFOUND then ret false
  else if rc =? 0 then ret true
  else throw (error_raise "DbiWrapper EXISTS error" rc).

(* -------------------------------------------------------------------- *)
(** *** MapDB_Pod_Pod *)

Record MapDB_Pod_Pod := mkPodPod {
  pp_TAllKey : CType; pp_TAllVal : CType; pp_dbiWrap : DbiWrapper }.

(** The class template with its two [static_assert]s: an instantiation at
    types that fail the layout predicate does not compile. *)
Definition MapDB_Pod_Pod_new_flags (TAllKey TAllVal : CType)
    (dbName : string) (dbiFlags : Z) : option MapDB_Pod_Pod :=
  if is_valid_keyval_type TAllKey && is_valid_keyval_type TAllVal
  then Some (mkPodPod TAllKey TAllVal (mkDbiWrapper dbName dbiFlags))
  else None.

Definition MapDB_Pod_Pod_new (TAllKey TAllVal : CType) (dbName : string)
  : option MapDB_Pod_Pod :=
  if is_valid_keyval_type TAllKey && is_valid_keyval_type TAllVal
  then Some (mkPodPod TAllKey TAllVal (DbiWrapper_new dbName))
  else None.

(** [void put(lmdb::txn &txn, const TAllKey &key, const TAllVal &val)] *)
Definition MapDB_Pod_Pod_put (db : MapDB_Pod_Pod) (key val : ptr)
  : M txn unit :=
  DbiWrapper_put (pp_TAllKey db) (pp_TAllVal db) (pp_dbiWrap db) key val.

(** [const TAllVal &get(lmdb::txn &txn, const TAllKey &key)] *)
Definition MapDB_Pod_Pod_get (db : MapDB_Pod_Pod) (key : ptr) : M txn ptr :=
  sp <~ DbiWrapper_get (pp_TAllKey db) (pp_dbiWrap db) key;
  asserted (asType unsigned_char (pp_TAllVal db) sp).

(* -------------------------------------------------------------------- *)
(** *** MapDB_Pod_PodArray *)

Record MapDB_Pod_PodArray := mkPodArr {
  pa_TAllKey : CType; pa_TAllValElem : CType; pa_dbiWrap : DbiWrapper }.

Definition MapDB_Pod_PodArray_new_flags (TAllKey TAllValElem : CType)
    (dbName : string) (dbiFlags : Z) : option MapDB_Pod_PodArray :=
  if is_valid_keyval_type TAllKey && is_valid_keyval_type TAllValElem
  then Some (mkPodArr TAllKey TAllValElem (mkDbiWrapper dbName dbiFlags))
  else None.

Definition MapDB_Pod_PodArray_new (TAllKey TAllValElem : CType)
    (dbName : string) : option MapDB_Pod_PodArray :=
  if is_valid_keyval_type TAllKey && is_valid_keyval_type TAllValElem
  then Some (mkPodArr TAllKey TAllValElem (DbiWrapper_new dbName))
  else None.

(** [LmdbSpan<TAllValElem> get(lmdb::txn &txn, const TAllKey &key)] *)
Definition MapDB_Pod_PodArray_get (db : MapDB_Pod_PodArray) (key : ptr)
  : M txn LmdbSpan :=
  sp <~ DbiWrapper_get (pa_TAllKey db) (pa_dbiWrap db) key;
  asserted (asSpan unsigned_char (pa_TAllValElem db) sp).

(** [void put(lmdb::txn &txn, const TAllKey &key,
              const TAllValElem *data, size_t count)] *)
Definition MapDB_Pod_PodArray_put (db : MapDB_Pod_PodArray)
    (key data : ptr) (count : Z) : M txn unit :=
  DbiWrapper_putArray (pa_TAllKey db) (pa_TAllValElem db) (pa_dbiWrap db)
    key data count.

(** [bool exists( lmdb::txn &txn, const TAllKey &key )] *)
Definition MapDB_Pod_PodArray_exists (db : MapDB_Pod_PodArray) (key : ptr)
  : M txn bool :=
  DbiWrapper_exists (pa_TAllKey db) (pa_dbiWrap db) key.

End Wrappers.

(* -------------------------------------------------------------------- *)
(** *** DatabaseEnvironment: the map size *)

(** [static constexpr size_t defaultMaxSize = 1UL * 1024UL * 1024UL * 1024UL;]
    [static constexpr size_t defaultMaxDbs = 10;] *)
Definition defaultMaxSize : Z := 1 * 1024 * 1024 * 1024.
Definition defaultMaxDbs : Z := 10.

(** The argument the constructor passes to [set_mapsize]:
    [(maxSize % 4096 == 0) ? maxSize : (maxSize + 4096 - (maxSize%4096))],
    computed in [size_t]. *)
Definition DatabaseEnvironment_mapsize (maxSize : Z) : Z :=
  if maxSize mod 4096 =? 0 then maxSize
  else wrap64 (wrap64 (maxSize + 4096) - maxSize mod 4096).

(** What a call leaves to its caller, without the transaction: a value, an
    exception, or nothing when an assertion stopped the process. *)
Definition outcome {S A} (r : result S A) : option (A + exn) :=
  match r with
  | Ok a _ => Some (inl a)
  | Throw e _ => Some (inr e)
  | Abort => None
  end.

(* -------------------------------------------------------------------- *)
(** *** Temporaries and vectors of EightPadded *)

(** The temporary [EightPadded<T>{d}]: [storage] is where the compiler
    places it, with whatever that memory held before. *)
Definition temporary (T P : CType) (storage : ptr) (d : list byte) : ptr :=
  mkPtr (p_addr storage) (EightPadded_ctor T P (p_bytes storage) d).

(** The implicit copy (and move) constructor of [EightPadded<T>] is
    member-wise: it gives [_data] of the new object [dst] the value of
    [_data] of [src]; the bytes of [dst] after the member are not required
    to be written, and keep what the memory held.  (A compiler that copies
    the whole object instead is the case where [dst] held the bytes of
    [src] already.) *)
Definition EightPadded_copy (T : CType) (dst src : list byte) : list byte :=
  assign_data T dst (EightPadded_get T src).

(** [for(auto &o : range) toPut.push_back(PadValElem{o});] on a vector with
    enough reserved capacity.  The vector is the list of its elements;
    [tmp i] is the storage of the temporary of the [i]-th iteration and
    [slot i] what the reserved buffer held at position [i]. *)
Fixpoint push_back_all (T P : CType) (tmp slot : nat -> list byte)
    (range toPut : list (list byte)) : list (list byte) :=
  match range with
  | [] => toPut
  | o :: rest =>
      let i := length toPut in
      let pushed := EightPadded_copy T (slot i) (EightPadded_ctor T P (tmp i) o) in
      push_back_all T P tmp slot rest (toPut ++ [pushed])
  end.

(** [const T& operator*() const {return _data;}] on a reference to the
    wrapper: the member is at offset 0. *)
Definition EightPadded_deref_ref (pv : ptr) : ptr := pv.

Section AutoPadded.
Context {B : Backend}.

(* -------------------------------------------------------------------- *)
(** *** MapDB_AutoPadded_Pod_Pod *)

Record MapDB_AutoPadded_Pod_Pod := mkAutoPodPod {
  app_TKey : CType; app_TVal : CType;
  app_PadKey : CType; app_PadVal : CType;
  app_db : MapDB_Pod_Pod }.

(** The class template: [PadKey] and [PadVal] are the two instantiations of
    [EightPadded], and the member [m_db] that of [MapDB_Pod_Pod] at them;
    the class exists when the latter's [static_assert]s hold. *)
Definition MapDB_AutoPadded_Pod_Pod_new (TKey TVal : CType) (dbName : string)
  : option MapDB_AutoPadded_Pod_Pod :=
  let PadKey := EightPadded TKey in
  let PadVal := EightPadded TVal in
  m_db ← MapDB_Pod_Pod_new PadKey PadVal dbName;
  Some (mkAutoPodPod TKey TVal PadKey PadVal m_db).

(** [void put(lmdb::txn &txn, const TKey &key, const TVal &val)
      { m_db.put(txn, PadKey{key}, PadVal{val}); }] *)
Definition MapDB_AutoPadded_Pod_Pod_put (db : MapDB_AutoPadded_Pod_Pod)
    (tmpK tmpV : ptr) (key val : ptr) : M txn unit :=
  MapDB_Pod_Pod_put (app_db db)
    (temporary (app_TKey db) (app_PadKey db) tmpK (deref (app_TKey db) key))
    (temporary (app_TVal db) (app_PadVal db) tmpV (deref (app_TVal db) val)).

(** [const TVal &get(lmdb::txn &txn, const TKey &key)
      { const PadVal &pv = m_db.get(txn, PadKey{key}); return *pv; }] *)
Definition MapDB_AutoPadded_Pod_Pod_get (db : MapDB_AutoPadded_Pod_Pod)
    (tmpK : ptr) (key : ptr) : M txn ptr :=
  pv <~ MapDB_Pod_Pod_get (app_db db)
          (temporary (app_TKey db) (app_PadKey db) tmpK
                     (deref (app_TKey db) key));
  ret (EightPadded_deref_ref pv).

(* -------------------------------------------------------------------- *)
(** *** MapDB_AutoPadded_Pod_PodArray *)

Record MapDB_AutoPadded_Pod_PodArray := mkAutoPodArr {
  apa_TKey : CType; apa_TValElem : CType;
  apa_PadKey : CType; apa_PadValElem : CType;
  apa_db : MapDB_Pod_PodArray }.

Definition MapDB_AutoPadded_Pod_PodArray_new (TKey TValElem : CType)
    (dbName : string) : option MapDB_AutoPadded_Pod_PodArray :=
  let PadKey := EightPadded TKey in
  let PadValElem := EightPadded TValElem in
  m_db ← MapDB_Pod_PodArray_new PadKey PadValElem dbName;
  Some (mkAutoPodArr TKey TValElem PadKey PadValElem m_db).

(** [template <typename Range>
     void put(lmdb::txn &txn, const TKey &key, const Range &range)]
    The range is the list of its elements; [buf] is the address of the
    vector's buffer. *)
Definition MapDB_AutoPadded_Pod_PodArray_put
    (db : MapDB_AutoPadded_Pod_PodArray) (tmpK : ptr)
    (tmp slot : nat -> list byte) (buf : Z)
    (key : ptr) (range : list (list byte)) : M txn unit :=
  let toPut :=
    push_back_all (apa_TValElem db) (apa_PadValElem db) tmp slot range [] in
  MapDB_Pod_PodArray_put (apa_db db)
    (temporary (apa_TKey db) (apa_PadKey db) tmpK (deref (apa_TKey db) key))
    (mkPtr buf (concat toPut)) (Z.of_nat (length toPut)).

(** [LmdbSpan<PadValElem> get(lmdb::txn &txn, const TKey &key)
      { return m_db.get(txn, PadKey{key}); }] *)
Definition MapDB_AutoPadded_Pod_PodArray_get
    (db : MapDB_AutoPadded_Pod_PodArray) (tmpK : ptr) (key : ptr)
  : M txn LmdbSpan :=
  MapDB_Pod_PodArray_get (apa_db db)
    (temporary (apa_TKey db) (apa_PadKey db) tmpK (deref (apa_TKey db) key)).

End AutoPadded.

(* ====================================================================== *)
(** ** A reference model of the store *)
(* ====================================================================== *)

Module Store.

#[global] Instance byte_eq_dec : EqDecision byte := Byte.byte_eq_dec.
#[global] Instance byte_countable : Countable byte :=
  inj_countable Byte.to_N Byte.of_N Byte.of_to_N.

(** Modelled from the spec: the embedded key-value store is an external
    collaborator (§1, §6).  An environment owns named collections of
    raw byte key -> raw byte value entries (§3).  [e_map] is the address at
    which the store's memory map exposes the value of a key of a collection:
    the store chooses it and gives no guarantee of alignment (§1).
    [e_maxdbs] and [e_mapsize] are the maximum number of named collections
    and the maximum map size, both fixed when the environment is opened
    (§3, §6). *)
Record env_t := mkEnv {
  e_dbs : gmap string (gmap (list byte) (list byte));
  e_map : string -> list byte -> Z;
  e_maxdbs : Z;
  e_mapsize : Z
}.

(** Modelled from the spec: a transaction is read-only or read-write (§3);
    it works on a snapshot of the collections, which a read-write
    transaction may change and which becomes the environment's state at
    commit (§5).  [t_base] is the state the transaction started from. *)
Record txn_t := mkTxn {
  t_rdonly : bool;
  t_dbs : gmap string (gmap (list byte) (list byte));
  t_map : string -> list byte -> Z;
  t_base : gmap string (gmap (list byte) (list byte));
  t_maxdbs : Z;
  t_mapsize : Z
}.

Definition set_dbs (d : gmap string (gmap (list byte) (list byte)))
    (t : txn_t) : txn_t :=
  mkTxn (t_rdonly t) d (t_map t) (t_base t) (t_maxdbs t) (t_mapsize t).

(** The largest key the store accepts, in bytes. *)
Definition MDB_MAXKEYSIZE : Z := 511.

(** The bytes an [MDB_val] designates. *)
Definition bytes_of (v : MDB_val) : list byte :=
  take (Z.to_nat (mv_size v)) (p_bytes (mv_data v)).

(** Modelled from the spec: the environment has a maximum map size (§3)
    and the store reports when it is full (§7).  The model measures what
    the collections hold by the bytes of their keys and values. *)
Definition table_bytes (tbl : gmap (list byte) (list byte)) : Z :=
  map_fold (fun k v acc => acc + Z.of_nat (length k) + Z.of_nat (length v))
           0 tbl.
Definition used (d : gmap string (gmap (list byte) (list byte))) : Z :=
  map_fold (fun _ tbl acc => acc + table_bytes tbl) 0 d.

(** Modelled from the spec: begin a read-only or a read-write transaction
    against an environment (§6). *)
Definition txn_begin (e : env_t) (flags : Z) : txn_t :=
  mkTxn (negb (Z.land flags MDB_RDONLY =? 0)) (e_dbs e) (e_map e) (e_dbs e)
        (e_maxdbs e) (e_mapsize e).

(** Modelled from the spec: commit a transaction (§6); the writes of a
    read-write transaction become visible to transactions opened
    afterwards (§5). *)
Definition txn_commit (t : txn_t) : env_t :=
  mkEnv (if t_rdonly t then t_base t else t_dbs t) (t_map t)
        (t_maxdbs t) (t_mapsize t).

(** Modelled from the spec: open/create a named collection within a
    transaction, with creation flags (§6).  Only the creation flag is
    modelled.  An existing collection is opened.  A missing one is reported
    not-found without the creation flag and cannot be created by a
    read-only transaction; a read-write transaction creates it empty,
    unless the name is empty, which the store refuses, or the environment
    already has its maximum number of named collections (§3).  Which
    failure is reported when several apply is not part of the contract; the
    model tests them in this order.  The handle is the name. *)
Definition mdb_dbi_open (t : txn_t) (name : string) (flags : Z)
  : Z * string * txn_t :=
  match t_dbs t !! name with
  | Some _ => (MDB_SUCCESS, name, t)
  | None =>
      if Z.land flags MDB_CREATE =? 0 then (MDB_NOTFOUND, name, t)
      else if t_rdonly t then (EACCES, name, t)
      else if bool_decide (name = EmptyString) then (MDB_BAD_VALSIZE, name, t)
      else if t_maxdbs t <=? Z.of_nat (base.size (t_dbs t))
           then (MDB_DBS_FULL, name, t)
      else (MDB_SUCCESS, name, set_dbs (<[name := ∅]> (t_dbs t)) t)
  end.

(** Modelled from the spec: [put(table, key-bytes, value-bytes)] -> success
    or failure code (§6); it upserts (§4.4).  A read-only transaction cannot
    write, a key must have between 1 and [MDB_MAXKEYSIZE] bytes, and the
    store reports that the environment is full (§7) when the keys and
    values would no longer fit the map size (§3). *)
Definition mdb_put (t : txn_t) (h : string) (k v : MDB_val) (flags : Z)
  : Z * txn_t :=
  if t_rdonly t then (EACCES, t)
  else match t_dbs t !! h with
       | None => (EINVAL, t)
       | Some tbl =>
           if (mv_size k =? 0) || (MDB_MAXKEYSIZE <? mv_size k)
           then (MDB_BAD_VALSIZE, t)
           else
             let d := <[h := <[bytes_of k := bytes_of v]> tbl]> (t_dbs t) in
             if t_mapsize t <? used d then (MDB_MAP_FULL, t)
             else (MDB_SUCCESS, set_dbs d t)
       end.

(** Modelled from the spec: [get(table, key-bytes)] -> value byte range, or
    a distinguished not-found code, or a failure code (§6).  The byte range
    lies in the store's memory map; on failure the out-parameter is not
    set. *)
Definition mdb_get (t : txn_t) (h : string) (k : MDB_val) : Z * MDB_val :=
  match t_dbs t !! h with
  | None => (EINVAL, mkVal 0 nullptr)
  | Some tbl =>
      if mv_size k =? 0 then (MDB_BAD_VALSIZE, mkVal 0 nullptr)
      else match tbl !! bytes_of k with
           | Some v => (MDB_SUCCESS,
                        mkVal (Z.of_nat (length v))
                              (mkPtr (t_map t h (bytes_of k)) v))
           | None => (MDB_NOTFOUND, mkVal 0 nullptr)
           end
  end.

#[global] Instance backend : Backend :=
  Build_Backend env_t txn_t string
    txn_begin txn_commit mdb_dbi_open mdb_put mdb_get.

(** The names of the collections of an environment / in a transaction. *)
Definition collections (e : env_t) : gset string := dom (e_dbs e).
Definition txn_collections (t : txn_t) : gset string := dom (t_dbs t).

(** The value stored under a key of a collection, as a transaction sees it. *)
Definition stored (t : txn_t) (name : string) (k : list byte)
  : option (list byte) :=
  t_dbs t !! name ≫= λ tbl, tbl !! k.


(** An environment with no collection, whose memory map is [place], opened
    with the defaults of [DatabaseEnvironment]. *)
Definition empty_env (place : string -> list byte -> Z) : env_t :=
  mkEnv ∅ place defaultMaxDbs (DatabaseEnvironment_mapsize defaultMaxSize).

(** A transaction in which the collection [name] has been created empty. *)
Definition created (name : string) (t : txn_t) : txn_t :=
  set_dbs (<[name := ∅]> (t_dbs t)) t.

(** A transaction in which [v] has been stored under [k] in [name]. *)
Definition written (name : string) (k v : list byte) (t : txn_t) : txn_t :=
  set_dbs (<[name := <[k := v]> (default ∅ (t_dbs t !! name))]> (t_dbs t)) t.

(** Eight-byte keys and values, and a wrapper for the collection ["t"]. *)
Definition key1 : ptr := mkPtr 1000 [x01; x00; x00; x00; x00; x00; x00; x00].
Definition val1 : ptr := mkPtr 2000 [x61; x62; x63; x64; x65; x66; x67; x68].
Definition fresh_env : env_t := empty_env (fun _ _ => 4096).
(** An environment whose memory map exposes values at 4040, a multiple of 8
    and not of 16, and a 16-byte object. *)
Definition env_4040 : env_t := empty_env (fun _ _ => 4040).
Definition val16 : ptr :=
  mkPtr 2048 [x01; x02; x03; x04; x05; x06; x07; x08;
              x09; x0a; x0b; x0c; x0d; x0e; x0f; x10].
(** An array of three 8-byte elements. *)
Definition elem_a : list byte := [x61; x00; x00; x00; x00; x00; x00; x00].
Definition elem_b : list byte := [x62; x00; x00; x00; x00; x00; x00; x00].
Definition elem_c : list byte := [x63; x00; x00; x00; x00; x00; x00; x00].
Definition arr_abc : ptr := mkPtr 3000 (concat [elem_a; elem_b; elem_c]).
Definition wrapper_t : DbiWrapper := DbiWrapper_new "t".

End Store.

(* ====================================================================== *)
(** ** Concrete objects for the examples *)
(* ====================================================================== *)

(** [EightPadded<TestStruct1>] and [EightPadded<char>]. *)
Definition EightPadded_TestStruct1 : CType := mkCType 8 8 true true true.
Definition EightPadded_char : CType := mkCType 8 8 true true true.

(** A span over two 64-bit integers. *)
Definition two_uint64 : LmdbSpan :=
  mkSpan (mkPtr 4096 (replicate 16 x00)) 2.

(** Storage with arbitrary previous contents, and the character ['c']. *)
Definition dirty8 : list byte := [xff; xfe; xfd; xfc; xfb; xfa; xf9; xf8].
Definition char_c : list byte := [x63].

(** Other storage, the objects of the library's self test (the keys [123]
    and [22] as [int32_t], the characters ['a'], ['b'], ['c']), and a span
    over four 64-bit integers. *)
Definition other8 : list byte := [x11; x22; x33; x44; x55; x66; x77; x88].
Definition key_other : ptr := mkPtr 1008 [x02; x00; x00; x00; x00; x00; x00; x00].
Definition key_123 : ptr := mkPtr 5000 [x7b; x00; x00; x00].
(** Stack storage for two temporaries, holding what was there before. *)
Definition stack_k : ptr := mkPtr 7000 dirty8.
Definition stack_v : ptr := mkPtr 7008 other8.
Definition key_22 : ptr := mkPtr 5008 [x16; x00; x00; x00].
Definition chr_a : ptr := mkPtr 6000 [x61].
Definition chars_abc : list (list byte) := [[x61]; [x62]; [x63]].
Definition EightPadded_int32 : CType := mkCType 8 8 true true true.
(** [struct { uint64_t a, b, c; }] *)
Definition three_uint64_t : CType := mkCType 24 8 true true true.
Definition four_uint64 : LmdbSpan :=
  mkSpan (mkPtr 8192 (concat [Store.elem_a; Store.elem_b; Store.elem_c;
                               Store.elem_a])) 4.

(* ====================================================================== *)
(** ** The layout predicate *)
(* ====================================================================== *)

(** Closed facts about concrete types: evaluate, then compare. *)
Ltac solve_closed := vm_compute; repeat split; congruence.

Lemma lnot_true (n : Z) : lnot n = true <-> n = 0.
Proof. unfold lnot. apply Z.eqb_eq. Qed.

Lemma is_pod_trivially_copyable (T : CType) :
  is_pod T = true -> is_trivially_copyable T = true.
Proof.
  unfold is_pod, is_trivial.
  destruct (is_trivially_copyable T); [reflexivity | discriminate].
Qed.

(** The library's own [static_assert]s on the predicate. *)
Example is_valid_keyval_type_char : is_valid_keyval_type char_t = false.
Proof. reflexivity. Qed.

Example is_valid_keyval_type_double : is_valid_keyval_type double_t = true.
Proof. reflexivity. Qed.

Example is_valid_keyval_type_EightPadded_char :
  EightPadded char_t = EightPadded_char /\
  is_valid_keyval_type EightPadded_char = true.
Proof. split; reflexivity. Qed.

(** C4, as stated, fails: [Counter] is trivially copyable and has size 8,
    but it is not a POD type, and the predicate rejects it. *)
Lemma is_valid_keyval_type_rejects_non_pod :
  wf_type Counter /\
  ~ (is_valid_keyval_type Counter = true <->
     is_trivially_copyable Counter = true /\ sizeof Counter mod 8 = 0).
Proof.
  split.
  - solve_closed.
  - intros [_ H]. specialize (H (conj eq_refl eq_refl)). discriminate H.
Qed.

(** C4 (amended): the predicate is true if and only if the type is POD
    (trivial and standard-layout) and its size is a multiple of 8; every
    type it accepts is in particular trivially copyable. *)
Theorem is_valid_keyval_type_iff_pod (T : CType) :
  (is_valid_keyval_type T = true <->
   is_pod T = true /\ sizeof T mod 8 = 0) /\
  (is_valid_keyval_type T = true ->
   is_trivially_copyable T = true /\ sizeof T mod 8 = 0).
Proof.
  assert (E : is_valid_keyval_type T = true <->
              is_pod T = true /\ sizeof T mod 8 = 0).
  { unfold is_valid_keyval_type.
    rewrite andb_true_iff, lnot_true. reflexivity. }
  split; [exact E |].
  intros H. apply E in H as [Hp Hs].
  split; [apply is_pod_trivially_copyable, Hp | exact Hs].
Qed.

(* ====================================================================== *)
(** ** EightPadded: size, alignment and contents *)
(* ====================================================================== *)

Lemma pad_to_8_ceil (s : Z) : pad_to 8 s = spec_padded_size s.
Proof.
  unfold pad_to, spec_padded_size, ceil_div.
  destruct (Z.eqb_spec (s mod 8) 0) as [E | E];
    Z.div_mod_to_equations; lia.
Qed.

Lemma pad_to_bounds (a s : Z) :
  0 < a -> pad_to a s mod a = 0 /\ s <= pad_to a s < s + a.
Proof.
  intros Ha. unfold pad_to.
  pose proof (Z.mod_pos_bound s a Ha) as Hr.
  destruct (Z.eqb_spec (s mod a) 0) as [E | E].
  - split; [exact E | lia].
  - split; [| lia].
    replace (s + a - s mod a) with ((s / a + 1) * a)
      by (pose proof (Z.div_mod s a); lia).
    apply Z.mod_mul. lia.
Qed.

Lemma pad_to_8_bounds (s : Z) : pad_to 8 s mod 8 = 0 /\ s <= pad_to 8 s < s + 8.
Proof. apply pad_to_bounds. lia. Qed.

Lemma pad_to_multiple (a s : Z) : s mod a = 0 -> pad_to a s = s.
Proof. intros H. unfold pad_to. rewrite H. reflexivity. Qed.

(** A complete type, whose alignment is a power of two that divides its
    size, has the layout the wrapper relies on. *)
Lemma pow2_align_ok (T : CType) (k : Z) :
  0 <= k -> alignof T = 2 ^ k -> sizeof T mod alignof T = 0 -> align_ok T.
Proof.
  intros Hk Ha Hs. unfold align_ok.
  destruct (Z_le_gt_dec k 3) as [H3 | H3].
  - left. rewrite Ha. change 8 with (2 ^ 3). apply Z.pow_le_mono_r; lia.
  - right. split; [| exact Hs]. rewrite Ha.
    replace k with (k - 3 + 3) by lia.
    rewrite Z.pow_add_r by lia. change (2 ^ 3) with 8.
    apply Z.mod_mul. lia.
Qed.

(** Over-aligned members: the member's size is already a multiple of 8. *)
Lemma align_ok_cases (T : CType) :
  align_ok T ->
  alignof T <= 8 \/
  (8 < alignof T /\ sizeof T mod alignof T = 0 /\ sizeof T mod 8 = 0).
Proof.
  intros [H | [H8 Hs]]; [left; exact H |].
  destruct (Z_le_gt_dec (alignof T) 8) as [Hle | Hgt]; [left; exact Hle |].
  right. split; [lia |]. split; [exact Hs |].
  apply Z_div_exact_full_2 in H8; [| lia].
  apply Z_div_exact_full_2 in Hs; [| lia].
  rewrite Hs, H8, <- Z.mul_assoc, Z.mul_comm. apply Z.mod_mul. lia.
Qed.

(** The layout of the wrapper, a class of one member: the member is at
    offset 0. *)
Lemma EightPadded_layout (T : CType) :
  sizeof (EightPadded T) = pad_to (Z.max 8 (alignof T)) (sizeof T) /\
  alignof (EightPadded T) = Z.max 8 (alignof T).
Proof. split; reflexivity. Qed.

Lemma EightPadded_sizeof (T : CType) :
  align_ok T -> sizeof (EightPadded T) = pad_to 8 (sizeof T).
Proof.
  intros H. rewrite (proj1 (EightPadded_layout T)).
  destruct (align_ok_cases T H) as [Hle | (Hgt & Hs & H8)].
  - rewrite Z.max_l by lia. reflexivity.
  - rewrite Z.max_r by lia. rewrite !pad_to_multiple by assumption.
    reflexivity.
Qed.

Lemma EightPadded_sizeof_ge (T : CType) : sizeof T <= sizeof (EightPadded T).
Proof.
  rewrite (proj1 (EightPadded_layout T)).
  pose proof (pad_to_bounds (Z.max 8 (alignof T)) (sizeof T) ltac:(lia)). lia.
Qed.

(** C6, as stated, fails: the wrapper of [long double], a trivially
    copyable type aligned at 16, is aligned at 16 and not at 8. *)
Lemma EightPadded_long_double_aligned_16 :
  wf_type long_double_t /\
  is_trivially_copyable long_double_t = true /\
  alignof (EightPadded long_double_t) = 16 /\
  alignof (EightPadded long_double_t) <> 8.
Proof. solve_closed. Qed.

(** C6 (amended): [EightPadded<T>] occupies exactly [ceil(sizeof(T)/8)*8]
    bytes; its alignment is the stricter of 8 and [alignof(T)], which is 8
    for every [T] aligned at most 8; its size is a multiple of 8 and at
    least [sizeof(T)]. *)
Theorem EightPadded_size_align (T : CType) :
  align_ok T ->
  sizeof (EightPadded T) = spec_padded_size (sizeof T) /\
  alignof (EightPadded T) = Z.max 8 (alignof T) /\
  (alignof T <= 8 -> alignof (EightPadded T) = 8) /\
  sizeof (EightPadded T) mod 8 = 0 /\
  sizeof T <= sizeof (EightPadded T).
Proof.
  intros H. pose proof (EightPadded_sizeof T H) as Hs.
  pose proof (pad_to_8_bounds (sizeof T)) as [Hm Hb].
  rewrite Hs. repeat split; [apply pad_to_8_ceil | | exact Hm | lia].
  intros Hle. rewrite (proj2 (EightPadded_layout T)). lia.
Qed.

(** The [static_assert]s of [detail::TestStruct1]: 4 bytes are padded to 8. *)
Lemma EightPadded_size_align_witness :
  align_ok TestStruct1 /\
  (sizeof (EightPadded TestStruct1) = spec_padded_size (sizeof TestStruct1) /\
   alignof (EightPadded TestStruct1) = Z.max 8 (alignof TestStruct1) /\
   (alignof TestStruct1 <= 8 -> alignof (EightPadded TestStruct1) = 8) /\
   sizeof (EightPadded TestStruct1) mod 8 = 0 /\
   sizeof TestStruct1 <= sizeof (EightPadded TestStruct1)).
Proof.
  assert (H : align_ok TestStruct1) by (left; discriminate).
  split; [exact H |].
  apply (EightPadded_size_align TestStruct1 H).
Defined.

Lemma memset_length (obj : list byte) (c : byte) (n : Z) :
  Z.of_nat (length obj) = n -> length (memset obj c n) = length obj.
Proof.
  intros H. unfold memset.
  rewrite length_app, length_replicate, length_drop. lia.
Qed.

Lemma memset_lookup (obj : list byte) (c : byte) (n : Z) (i : nat) :
  Z.of_nat i < n -> memset obj c n !! i = Some c.
Proof.
  intros H. unfold memset.
  rewrite lookup_app_l by (rewrite length_replicate; lia).
  apply lookup_replicate_2. lia.
Qed.

(** C5: for a trivially copyable [T], constructing [EightPadded<T>] from
    [d] and reading the wrapped value back, through [get()], [cget()] or
    [operator*] (on the object or on a reference to it), yields [d]; the
    object keeps its padded size, and every byte from offset [sizeof(T)] to
    the end of the padded footprint is zero, whatever the storage held
    before. *)
Theorem EightPadded_ctor_get (T : CType) (this d : list byte) :
  is_trivially_copyable T = true ->
  Z.of_nat (length this) = sizeof (EightPadded T) ->
  Z.of_nat (length d) = sizeof T ->
  let obj := EightPadded_ctor T (EightPadded T) this d in
  EightPadded_get T obj = d /\
  EightPadded_cget T obj = d /\
  EightPadded_deref T obj = d /\
  (forall a, deref T (EightPadded_deref_ref (mkPtr a obj)) = d) /\
  Z.of_nat (length obj) = sizeof (EightPadded T) /\
  forall i : nat, sizeof T <= Z.of_nat i < sizeof (EightPadded T) ->
    obj !! i = Some x00.
Proof.
  intros _ Hthis Hd obj.
  pose proof (EightPadded_sizeof_ge T) as Hle.
  assert (Hn : Z.to_nat (sizeof T) = length d) by lia.
  assert (Hget : take (Z.to_nat (sizeof T)) obj = d).
  { unfold obj, EightPadded_ctor, assign_data.
    rewrite Hn, firstn_all. apply take_app_length. }
  unfold EightPadded_get, EightPadded_cget, EightPadded_deref,
    EightPadded_deref_ref, deref. cbn [p_bytes].
  repeat split; try exact Hget; try (intros a; exact Hget).
  - unfold obj, EightPadded_ctor, assign_data.
    rewrite Hn, firstn_all.
    rewrite length_app, length_drop, memset_length by exact Hthis. lia.
  - intros i Hi. unfold obj, EightPadded_ctor, assign_data.
    rewrite Hn, firstn_all.
    rewrite lookup_app_r by lia.
    rewrite lookup_drop.
    apply memset_lookup. lia.
Qed.

(** The library's self test: [EightPadded<char>{'c'}] dereferences to ['c']
    and its bytes 1..7 are zero. *)
Lemma EightPadded_ctor_get_witness :
  (is_trivially_copyable char_t = true /\
   Z.of_nat (length dirty8) = sizeof (EightPadded char_t) /\
   Z.of_nat (length char_c) = sizeof char_t) /\
  (let obj := EightPadded_ctor char_t (EightPadded char_t) dirty8 char_c in
   EightPadded_get char_t obj = char_c /\
   EightPadded_cget char_t obj = char_c /\
   EightPadded_deref char_t obj = char_c /\
   (forall a, deref char_t (EightPadded_deref_ref (mkPtr a obj)) = char_c) /\
   Z.of_nat (length obj) = sizeof (EightPadded char_t) /\
   forall i : nat, sizeof char_t <= Z.of_nat i < sizeof (EightPadded char_t) ->
     obj !! i = Some x00).
Proof.
  split; [repeat split |].
  apply (EightPadded_ctor_get char_t dirty8 char_c); reflexivity.
Defined.

(* ====================================================================== *)
(** ** LmdbSpan: reinterpretation *)
(* ====================================================================== *)

Lemma wrap64_small (z : Z) : 0 <= z < 2 ^ 64 -> wrap64 z = z.
Proof. intros H. unfold wrap64. apply Z.mod_small, H. Qed.

Lemma assert_Some (c : bool) : assert c = Some tt <-> c = true.
Proof. destruct c; cbn; split; congruence. Qed.

(** What [asSpan] returns when its two assertions hold. *)
Lemma asSpan_Some (T TNew : CType) (sp : LmdbSpan) :
  wrap64 (sizeof T * m_size sp) mod sizeof TNew = 0 ->
  p_addr (m_data sp) mod alignof TNew = 0 ->
  asSpan T TNew sp = Some (mkSpan (m_data sp) (m_size sp / sizeof TNew)).
Proof.
  intros H1 H2. unfold asSpan, is_aligned_for.
  rewrite H1, H2. reflexivity.
Qed.

(** A span of bytes, the only source the library itself reinterprets, gets
    the element count the spec asks for. *)
Lemma asSpan_of_bytes (TNew : CType) (sp : LmdbSpan) :
  0 <= m_size sp < 2 ^ 64 ->
  m_size sp mod sizeof TNew = 0 ->
  p_addr (m_data sp) mod alignof TNew = 0 ->
  exists sp', asSpan unsigned_char TNew sp = Some sp' /\
              size sp' = spec_asSpan_size unsigned_char TNew sp.
Proof.
  intros Hb H1 H2. eexists. split.
  - apply asSpan_Some; [| exact H2].
    cbn [sizeof unsigned_char].
    rewrite Z.mul_1_l, wrap64_small by exact Hb. exact H1.
  - unfold size, spec_asSpan_size. cbn [m_size sizeof unsigned_char].
    rewrite Z.mul_1_r. reflexivity.
Qed.

(** C1 fails on the code: a span of two 8-byte elements meets both
    preconditions for 4-byte elements (16 bytes, address 4096), and the
    reinterpretation succeeds, but the view it yields has size
    [2 / 4 = 0] where the spec asks for [2 * 8 / 4 = 4]: the element count
    is divided by the new element size without being multiplied by the old
    one. *)
Theorem asSpan_drops_source_element_size :
  (sizeof uint64_t * m_size two_uint64) mod sizeof uint32_t = 0 /\
  is_aligned_for uint32_t (m_data two_uint64) = true /\
  asSpan uint64_t uint32_t two_uint64 = Some (mkSpan (m_data two_uint64) 0) /\
  spec_asSpan_size uint64_t uint32_t two_uint64 = 4.
Proof. repeat split. Qed.

(** The null span has no element and reports itself null. *)
Lemma makeNull_is_null (T : CType) :
  makeNull T = Some (mkSpan nullptr 0) /\
  size (mkSpan nullptr 0) = 0 /\ isNull (mkSpan nullptr 0) = true.
Proof.
  unfold makeNull, LmdbSpan_range, ptr_diff. cbn [p_addr nullptr].
  rewrite Z.sub_diag, Zdiv_0_l. repeat split.
Qed.

(** The span a raw byte range is wrapped in. *)
Lemma LmdbSpan_MDB_val_bytes (mv : MDB_val) :
  LmdbSpan_MDB_val unsigned_char mv = Some (mkSpan (mv_data mv) (mv_size mv)).
Proof.
  unfold LmdbSpan_MDB_val, is_aligned_for. cbn [sizeof alignof unsigned_char m_data].
  rewrite !Z.mod_1_r, Z.div_1_r. reflexivity.
Qed.

(* ====================================================================== *)
(** ** DbiWrapper over any store *)
(* ====================================================================== *)

Lemma error_raise_other (origin : string) (rc : Z) :
  rc <> MDB_NOTFOUND -> error_raise origin rc = runtime_error origin rc.
Proof.
  intros H. unfold error_raise.
  destruct (Z.eqb_spec rc MDB_NOTFOUND); [contradiction | reflexivity].
Qed.

Section AnyStore.
Context {B : Backend}.

Lemma dbi_Ok_inv (w : DbiWrapper) (t t1 : txn) (h : dbi_t) :
  dbi w t = Ok h t1 ->
  mdb_dbi_open t (c_str (m_dbName w)) (m_dbiflags w) = (MDB_SUCCESS, h, t1).
Proof.
  unfold dbi, lmdb_dbi_open.
  destruct (mdb_dbi_open t (c_str (m_dbName w)) (m_dbiflags w)) as [[rc h'] t'].
  destruct (Z.eqb_spec rc MDB_SUCCESS) as [-> | _]; [| discriminate].
  intros [= -> ->]. reflexivity.
Qed.

Lemma dbi_again (L : BackendLaws B) (w : DbiWrapper) (t t1 : txn) (h : dbi_t) :
  dbi w t = Ok h t1 -> dbi w t1 = Ok h t1.
Proof.
  intros H. apply dbi_Ok_inv, mdb_dbi_open_again in H.
  unfold dbi, lmdb_dbi_open. rewrite H. reflexivity.
Qed.

(** A failure of the table-open step is what every operation reports. *)
Lemma exists_open_fails (K : CType) (w : DbiWrapper) (key : ptr)
    (t t1 : txn) (e : exn) :
  dbi w t = Throw e t1 -> DbiWrapper_exists K w key t = Throw e t1.
Proof. intros H. unfold DbiWrapper_exists, bind. rewrite H. reflexivity. Qed.

Lemma get_open_fails (K : CType) (w : DbiWrapper) (key : ptr)
    (t t1 : txn) (e : exn) :
  dbi w t = Throw e t1 -> DbiWrapper_get K w key t = Throw e t1.
Proof. intros H. unfold DbiWrapper_get, bind. rewrite H. reflexivity. Qed.

Lemma exists_by_code (L : BackendLaws B) (K : CType)
    (w : DbiWrapper) (key : ptr) (t t1 : txn) (h : dbi_t)
    (rc : Z) (mval : MDB_val) :
  dbi w t = Ok h t1 ->
  mdb_get t1 h (mkVal (sizeof K) key) = (rc, mval) ->
  DbiWrapper_exists K w key t =
    if rc =? MDB_NOTFOUND then Ok false t1
    else if rc =? MDB_SUCCESS then Ok true t1
    else Throw (runtime_error "DbiWrapper EXISTS error" rc) t1.
Proof.
  intros Hopen Hget.
  pose proof (dbi_again L w t t1 h Hopen) as Hagain.
  unfold DbiWrapper_exists, bind, gets. rewrite Hopen, Hget, Hagain.
  unfold MDB_SUCCESS.
  destruct (Z.eqb_spec rc MDB_NOTFOUND) as [E | E]; [reflexivity |].
  destruct (rc =? 0); [reflexivity |].
  unfold throw. rewrite error_raise_other by exact E. reflexivity.
Qed.

Lemma get_by_code (K : CType) (w : DbiWrapper) (key : ptr) (t t1 : txn)
    (h : dbi_t) (rc : Z) (mval : MDB_val) :
  dbi w t = Ok h t1 ->
  mdb_get t1 h (mkVal (sizeof K) key) = (rc, mval) ->
  DbiWrapper_get K w key t =
    if rc =? MDB_SUCCESS then Ok (mkSpan (mv_data mval) (mv_size mval)) t1
    else Throw (error_raise "DbiWrapper GET error" rc) t1.
Proof.
  intros Hopen Hget.
  unfold DbiWrapper_get, bind, gets. rewrite Hopen, Hget.
  unfold MDB_SUCCESS. destruct (rc =? 0); cbn; [| reflexivity].
  unfold asserted. rewrite LmdbSpan_MDB_val_bytes. reflexivity.
Qed.

Lemma dbi_never_aborts (w : DbiWrapper) (t : txn) : dbi w t <> Abort.
Proof.
  unfold dbi, lmdb_dbi_open.
  destruct (mdb_dbi_open t (c_str (m_dbName w)) (m_dbiflags w)) as [[rc h] t'].
  destruct (rc =? MDB_SUCCESS); discriminate.
Qed.

(** [get] and [exists] leave the transaction as the table-open step left
    it, and never stop the process. *)
Lemma get_txn_after (K : CType) (w : DbiWrapper) (key : ptr) (t : txn) :
  txn_after (DbiWrapper_get K w key t) = txn_after (dbi w t).
Proof.
  destruct (dbi w t) as [h t1 | e t1 |] eqn:Hopen.
  - destruct (mdb_get t1 h (mkVal (sizeof K) key)) as [rc mval] eqn:Hget.
    rewrite (get_by_code K w key t t1 h rc mval Hopen Hget).
    destruct (rc =? MDB_SUCCESS); reflexivity.
  - rewrite (get_open_fails K w key t t1 e Hopen). reflexivity.
  - exfalso. exact (dbi_never_aborts w t Hopen).
Qed.


(** C7: for every transaction and key, [exists] does its own lookup with
    [mdb_get] on the handle it opened and classifies the store's code
    itself: not-found gives [false], success gives [true], and any other
    code is raised as a failure carrying that code; a failure of the
    table-open step is propagated as it is.  No exception of [get] is
    caught on the way. *)
Theorem exists_classifies_lookup (L : BackendLaws B) (K : CType)
    (w : DbiWrapper) (key : ptr) (t : txn) :
  (forall e t1, dbi w t = Throw e t1 ->
     DbiWrapper_exists K w key t = Throw e t1) /\
  (forall h t1 rc mval,
     dbi w t = Ok h t1 ->
     mdb_get t1 h (mkVal (sizeof K) key) = (rc, mval) ->
     DbiWrapper_exists K w key t =
       if rc =? MDB_NOTFOUND then Ok false t1
       else if rc =? MDB_SUCCESS then Ok true t1
       else Throw (runtime_error "DbiWrapper EXISTS error" rc) t1).
Proof.
  split.
  - intros e t1. apply exists_open_fails.
  - intros h t1 rc mval. apply exists_by_code, L.
Qed.

End AnyStore.

(* ====================================================================== *)
(** ** DbiWrapper over the reference store *)
(* ====================================================================== *)

Module StoreFacts.
Import Store.

Lemma store_laws : BackendLaws backend.
Proof.
  constructor. intros t name flags h t'. cbn. unfold mdb_dbi_open.
  destruct (t_dbs t !! name) as [tbl |] eqn:E.
  - intros [= <- <-]. rewrite E. reflexivity.
  - destruct (Z.land flags MDB_CREATE =? 0); [discriminate |].
    destruct (t_rdonly t); [discriminate |].
    destruct (bool_decide (name = EmptyString)); [discriminate |].
    destruct (t_maxdbs t <=? Z.of_nat (base.size (t_dbs t))); [discriminate |].
    intros [= <- <-]. cbn. rewrite lookup_insert_eq. reflexivity.
Qed.

(** The store's table-open step on the name a wrapper hands over. *)
Lemma dbi_unfold (w : DbiWrapper) (t : txn_t) :
  dbi w t =
    let '(rc, h, t') :=
      Store.mdb_dbi_open t (c_str (m_dbName w)) (m_dbiflags w) in
    if rc =? MDB_SUCCESS then Ok h t'
    else Throw (error_raise "mdb_dbi_open" rc) t'.
Proof. reflexivity. Qed.

(** The ways the table-open step of a wrapper can go. *)
Lemma dbi_existing (w : DbiWrapper) (t : txn_t) (tbl : gmap (list byte) (list byte)) :
  t_dbs t !! c_str (m_dbName w) = Some tbl ->
  dbi w t = Ok (c_str (m_dbName w)) t.
Proof.
  intros E. rewrite dbi_unfold. unfold Store.mdb_dbi_open.
  rewrite E. reflexivity.
Qed.


Lemma dbi_readonly_missing (name : string) (t : txn_t) :
  t_dbs t !! c_str name = None -> t_rdonly t = true ->
  dbi (DbiWrapper_new name) t = Throw (runtime_error "mdb_dbi_open" EACCES) t.
Proof.
  intros E R. rewrite dbi_unfold. unfold Store.mdb_dbi_open.
  cbn [m_dbName m_dbiflags DbiWrapper_new].
  rewrite E, R. reflexivity.
Qed.



Lemma openReadTxn_view (e : env_t) :
  t_rdonly (openReadTxn e) = true /\ t_dbs (openReadTxn e) = e_dbs e.
Proof. split; reflexivity. Qed.

Lemma openWriteTxn_view (e : env_t) :
  t_rdonly (openWriteTxn e) = false /\ t_dbs (openWriteTxn e) = e_dbs e.
Proof. split; reflexivity. Qed.

(** C10: in a read-only transaction over an environment that does not have
    the collection (named by the wrapper's name up to its first NUL, which
    is what [c_str()] hands to the store), [get] and [exists] both raise
    the store's failure of the table-open step (access denied, raised by
    [mdb_dbi_open]); [get] does not signal not-found and [exists] does not
    return [false]. *)
Theorem readonly_missing_collection_fails_at_open (name : string)
    (K : CType) (key : ptr) (e : env_t) :
  c_str name ∉ collections e ->
  let t := openReadTxn e in
  let failure := runtime_error "mdb_dbi_open" EACCES in
  DbiWrapper_get K (DbiWrapper_new name) key t = Throw failure t /\
  DbiWrapper_exists K (DbiWrapper_new name) key t = Throw failure t /\
  is_not_found failure = false.
Proof.
  intros Hno t failure.
  assert (Hopen : dbi (DbiWrapper_new name) t = Throw failure t).
  { apply dbi_readonly_missing; [| reflexivity].
    unfold collections in Hno. apply not_elem_of_dom in Hno. exact Hno. }
  split; [| split; [| reflexivity]].
  - apply (get_open_fails K _ key _ _ _ Hopen).
  - apply (exists_open_fails K _ key _ _ _ Hopen).
Qed.

Lemma readonly_missing_collection_fails_at_open_witness :
  (c_str "t" ∉ collections fresh_env) /\
  (let t := openReadTxn fresh_env in
   let failure := runtime_error "mdb_dbi_open" EACCES in
   DbiWrapper_get uint64_t (DbiWrapper_new "t") key1 t = Throw failure t /\
   DbiWrapper_exists uint64_t (DbiWrapper_new "t") key1 t = Throw failure t /\
   is_not_found failure = false).
Proof.
  assert (H : c_str "t" ∉ collections fresh_env).
  { unfold collections, fresh_env, empty_env. cbn. rewrite dom_empty_L.
    apply not_elem_of_empty. }
  split; [exact H |].
  apply (readonly_missing_collection_fails_at_open "t" uint64_t key1 fresh_env H).
Defined.

Lemma exists_classifies_lookup_witness :
  let t := openWriteTxn fresh_env in
  (dbi wrapper_t t = Ok "t" (created "t" t) /\
   mdb_get (created "t" t) "t" (mkVal (sizeof uint64_t) key1)
     = (MDB_NOTFOUND, mkVal 0 nullptr)) /\
  DbiWrapper_exists uint64_t wrapper_t key1 t = Ok false (created "t" t).
Proof.
  intros t. split; [split; reflexivity |].
  apply (proj2 (exists_classifies_lookup store_laws uint64_t wrapper_t key1 t)
           "t" (created "t" t) MDB_NOTFOUND (mkVal 0 nullptr));
    reflexivity.
Defined.

(* -------------------------------------------------------------------- *)
(** *** Keys that were never written *)

Lemma bytes_of_key (K : CType) (key : ptr) :
  bytes_of (mkVal (sizeof K) key) = deref K key.
Proof. reflexivity. Qed.

(** The lookup of [get] and [exists], once the table is open. *)
Lemma mdb_get_open (K : CType) (key : ptr) (name : string) (t : txn_t)
    (tbl : gmap (list byte) (list byte)) :
  sizeof K <> 0 ->
  t_dbs t !! name = Some tbl ->
  mdb_get t name (mkVal (sizeof K) key) =
    match tbl !! deref K key with
    | Some v => (MDB_SUCCESS,
                 mkVal (Z.of_nat (length v))
                       (mkPtr (t_map t name (deref K key)) v))
    | None => (MDB_NOTFOUND, mkVal 0 nullptr)
    end.
Proof.
  intros HK E. cbn. unfold Store.mdb_get. rewrite E. cbn [mv_size].
  destruct (Z.eqb_spec (sizeof K) 0) as [E0 | _]; [contradiction |].
  rewrite bytes_of_key. reflexivity.
Qed.

Lemma created_lookup (name : string) (t : txn_t) :
  t_dbs (created name t) !! name = Some ∅.
Proof. unfold created. cbn. apply lookup_insert_eq. Qed.

Lemma created_collections (name : string) (t : txn_t) :
  txn_collections (created name t) = {[name]} ∪ txn_collections t.
Proof. unfold txn_collections, created. cbn. apply dom_insert_L. Qed.

(** Creating a collection that was missing changes no stored value. *)
Lemma created_stored (name other : string) (k : list byte) (t : txn_t) :
  t_dbs t !! name = None ->
  stored (created name t) other k = stored t other k.
Proof.
  intros E. unfold stored, created. cbn.
  destruct (decide (other = name)) as [-> | Hne].
  - rewrite lookup_insert_eq, E. cbn. apply lookup_empty.
  - rewrite lookup_insert_ne by congruence. reflexivity.
Qed.

(** What a successful table-open step of the store leaves behind: the
    handle is the name the store was given, the collection exists, and the
    transaction is the one before, or the one before with the collection
    created empty where it was missing. *)
Lemma dbi_Ok_store (w : DbiWrapper) (t t1 : txn_t) (h : string) :
  dbi w t = Ok h t1 ->
  h = c_str (m_dbName w) /\ is_Some (t_dbs t1 !! c_str (m_dbName w)) /\
  t_rdonly t1 = t_rdonly t /\ t_map t1 = t_map t /\
  (t1 = t \/
   (t_dbs t !! c_str (m_dbName w) = None /\
    t1 = created (c_str (m_dbName w)) t)).
Proof.
  intros H. apply (dbi_Ok_inv (B := backend)) in H. cbn in H.
  unfold Store.mdb_dbi_open in H.
  destruct (t_dbs t !! c_str (m_dbName w)) as [tbl |] eqn:E.
  - injection H as <- <-. rewrite E. repeat split; eauto.
  - destruct (Z.land (m_dbiflags w) MDB_CREATE =? 0); [discriminate |].
    destruct (t_rdonly t) eqn:R; [discriminate |].
    destruct (bool_decide (c_str (m_dbName w) = EmptyString)); [discriminate |].
    destruct (t_maxdbs t <=? Z.of_nat (base.size (t_dbs t))); [discriminate |].
    injection H as <- <-.
    change (set_dbs _ t) with (created (c_str (m_dbName w)) t).
    rewrite created_lookup. repeat split; eauto.
Qed.

(** The table-open step changes no stored value. *)
Lemma dbi_Ok_frame (w : DbiWrapper) (t t1 : txn_t) (h : string)
    (other : string) (k : list byte) :
  dbi w t = Ok h t1 -> stored t1 other k = stored t other k.
Proof.
  intros H. apply dbi_Ok_store in H as (_ & _ & _ & _ & [-> | [E ->]]).
  - reflexivity.
  - apply created_stored, E.
Qed.

(** C8, as stated, fails: in a read-only transaction over an environment
    without the collection the key was never written, yet [get] raises the
    failure of the table-open step, which is not the not-found condition,
    and [exists] raises it too instead of returning [false]. *)
Lemma unwritten_key_readonly_fresh_env :
  let t := openReadTxn fresh_env in
  stored t "t" (deref uint64_t key1) = None /\
  DbiWrapper_get uint64_t wrapper_t key1 t
    = Throw (runtime_error "mdb_dbi_open" EACCES) t /\
  is_not_found (runtime_error "mdb_dbi_open" EACCES) = false /\
  DbiWrapper_exists uint64_t wrapper_t key1 t
    = Throw (runtime_error "mdb_dbi_open" EACCES) t.
Proof. intros t. repeat split. Qed.

(** C8 (amended): for every wrapper, whatever its flags, and every key that
    was never written to its collection (the collection the store knows
    under the wrapper's name up to its first NUL), whenever the table-open
    step with which [get] and [exists] begin succeeds, [get] fails with the
    not-found exception, a failure distinct from every other backend error
    and not a null or empty result, and [exists] returns [false]; both
    leave the transaction as the table-open step left it. *)
Theorem unwritten_key_not_found (K : CType) (w : DbiWrapper) (key : ptr)
    (t t1 : txn_t) (h : string) :
  0 < sizeof K ->
  dbi w t = Ok h t1 ->
  stored t (c_str (m_dbName w)) (deref K key) = None ->
  DbiWrapper_get K w key t
    = Throw (not_found_error "DbiWrapper GET error") t1 /\
  is_not_found (not_found_error "DbiWrapper GET error") = true /\
  (forall origin rc,
     not_found_error "DbiWrapper GET error" <> runtime_error origin rc) /\
  DbiWrapper_exists K w key t = Ok false t1.
Proof.
  intros HK Hdbi Hnone.
  pose proof (dbi_Ok_frame w t t1 h (c_str (m_dbName w)) (deref K key) Hdbi)
    as Hframe.
  pose proof (dbi_Ok_store w t t1 h Hdbi) as (-> & [tbl Htbl] & _).
  rewrite Hnone in Hframe. unfold stored in Hframe. rewrite Htbl in Hframe.
  cbn in Hframe.
  assert (HK0 : sizeof K <> 0) by lia.
  pose proof (mdb_get_open K key _ t1 tbl HK0 Htbl) as Hget.
  rewrite Hframe in Hget.
  repeat split.
  - rewrite (get_by_code (B := backend) K _ key t t1 _ _ _ Hdbi Hget).
    reflexivity.
  - discriminate.
  - rewrite (exists_by_code (B := backend) store_laws K _ key t t1 _ _ _
               Hdbi Hget).
    reflexivity.
Qed.

Lemma unwritten_key_not_found_witness :
  let t := openWriteTxn fresh_env in
  (0 < sizeof uint64_t /\
   dbi wrapper_t t = Ok "t" (created "t" t) /\
   stored t (c_str (m_dbName wrapper_t)) (deref uint64_t key1) = None) /\
  DbiWrapper_get uint64_t wrapper_t key1 t
    = Throw (not_found_error "DbiWrapper GET error") (created "t" t) /\
  is_not_found (not_found_error "DbiWrapper GET error") = true /\
  (forall origin rc,
     not_found_error "DbiWrapper GET error" <> runtime_error origin rc) /\
  DbiWrapper_exists uint64_t wrapper_t key1 t = Ok false (created "t" t).
Proof.
  intros t.
  assert (H1 : 0 < sizeof uint64_t) by reflexivity.
  assert (H2 : dbi wrapper_t t = Ok "t" (created "t" t)) by reflexivity.
  assert (H3 : stored t (c_str (m_dbName wrapper_t)) (deref uint64_t key1)
               = None) by reflexivity.
  split; [auto |].
  exact (unwritten_key_not_found uint64_t wrapper_t key1 t (created "t" t)
           "t" H1 H2 H3).
Defined.

(* -------------------------------------------------------------------- *)
(** *** Which operations create a collection *)

Lemma mdb_put_Ok_inv (t t' : txn_t) (h : string) (k v : MDB_val) (flags rc : Z) :
  Store.mdb_put t h k v flags = (rc, t') ->
  rc = 0 ->
  t_rdonly t = false /\ mv_size k <> 0 /\
  t' = written h (bytes_of k) (bytes_of v) t.
Proof.
  unfold Store.mdb_put, written. intros H ->.
  destruct (t_rdonly t); [discriminate |].
  destruct (t_dbs t !! h) as [tbl |]; [| discriminate].
  destruct (Z.eqb_spec (mv_size k) 0); [discriminate |].
  destruct (MDB_MAXKEYSIZE <? mv_size k); [discriminate |].
  cbv zeta in H.
  destruct (t_mapsize t <? used _); [discriminate |].
  apply pair_equal_spec in H as [_ <-]. auto.
Qed.


Lemma written_stored (name : string) (k v : list byte) (t : txn_t) :
  stored (written name k v t) name k = Some v /\
  t_rdonly (written name k v t) = t_rdonly t /\
  t_map (written name k v t) = t_map t /\
  txn_collections (written name k v t) = {[name]} ∪ txn_collections t.
Proof.
  unfold stored, written, txn_collections. cbn.
  rewrite lookup_insert_eq. cbn. rewrite lookup_insert_eq, dom_insert_L. auto.
Qed.

Lemma written_after_created (name : string) (k v : list byte) (t : txn_t) :
  txn_collections (written name k v (created name t))
    = {[name]} ∪ txn_collections t.
Proof.
  destruct (written_stored name k v (created name t)) as (_ & _ & _ & ->).
  rewrite created_collections.
  apply set_eq. intros x. rewrite !elem_of_union. tauto.
Qed.


(** The store-level effect of the two writing entry points, which differ
    only in the byte range they hand over as the value. *)
Lemma put_pattern_Ok_inv (w : DbiWrapper) (mkey mval : MDB_val) (origin : string)
    (t t' : txn) :
  bind (dbi w) (fun h t0 =>
     let '(rc, t1) := mdb_put t0 h mkey mval 0 in
     if negb (rc =? 0) then Throw (error_raise origin rc) t1 else Ok tt t1) t
    = Ok tt t' ->
  exists t1, dbi w t = Ok (c_str (m_dbName w)) t1 /\
             t_rdonly t = false /\ mv_size mkey <> 0 /\
             t' = written (c_str (m_dbName w)) (bytes_of mkey) (bytes_of mval) t1.
Proof.
  unfold bind. destruct (dbi w t) as [h t1 | |] eqn:Hopen; [| discriminate ..].
  pose proof (dbi_Ok_store w t t1 h Hopen) as (-> & _ & HR & _ & _).
  cbn. destruct (Store.mdb_put t1 (c_str (m_dbName w)) mkey mval 0)
    as [rc t2] eqn:Hput.
  destruct (Z.eqb_spec rc 0) as [E | E]; [| discriminate]. cbn.
  intros [= <-].
  apply mdb_put_Ok_inv in Hput as (R & Hk & ->); [| exact E].
  exists t1. rewrite <- HR. auto.
Qed.

(** What a write through a wrapper that returns has done. *)
Lemma put_Ok_inv (K V : CType) (w : DbiWrapper) (key val : ptr) (t t' : txn_t) :
  DbiWrapper_put K V w key val t = Ok tt t' ->
  stored t' (c_str (m_dbName w)) (deref K key) = Some (deref V val) /\
  t_rdonly t' = false /\ t_map t' = t_map t /\ sizeof K <> 0 /\
  txn_collections t' = {[c_str (m_dbName w)]} ∪ txn_collections t.
Proof.
  intros H. apply put_pattern_Ok_inv in H as (t1 & Hopen & R & Hk & ->).
  apply dbi_Ok_store in Hopen as (_ & _ & HR & Hm1 & Ht1).
  change (bytes_of (mkVal (sizeof K) key)) with (deref K key).
  change (bytes_of (mkVal (sizeof V) val)) with (deref V val).
  pose proof (written_stored (c_str (m_dbName w)) (deref K key) (deref V val) t1)
    as (Hs & HR' & Hm & Hc).
  rewrite Hs, HR', Hm, Hc, HR, Hm1. cbn [mv_size] in Hk.
  destruct Ht1 as [-> | [_ ->]].
  - auto.
  - rewrite created_collections. repeat split; auto.
    apply set_eq. intros x. rewrite !elem_of_union. tauto.
Qed.

Lemma putArray_Ok_inv (K E : CType) (w : DbiWrapper) (key dat : ptr)
    (count : Z) (t t' : txn_t) :
  DbiWrapper_putArray K E w key dat count t = Ok tt t' ->
  stored t' (c_str (m_dbName w)) (deref K key)
    = Some (take (Z.to_nat (wrap64 (sizeof E * count))) (p_bytes dat)) /\
  t_rdonly t' = false /\ t_map t' = t_map t /\ sizeof K <> 0.
Proof.
  intros H. apply put_pattern_Ok_inv in H as (t1 & Hopen & R & Hk & ->).
  apply dbi_Ok_store in Hopen as (_ & _ & HR & Hm1 & _).
  change (bytes_of (mkVal (sizeof K) key)) with (deref K key).
  change (bytes_of (mkVal (wrap64 (sizeof E * count)) dat))
    with (take (Z.to_nat (wrap64 (sizeof E * count))) (p_bytes dat)).
  pose proof (written_stored (c_str (m_dbName w)) (deref K key)
                (take (Z.to_nat (wrap64 (sizeof E * count))) (p_bytes dat)) t1)
    as (Hs & HR' & Hm & _).
  rewrite Hs, HR', Hm, HR, Hm1. cbn [mv_size] in Hk. auto.
Qed.






(* -------------------------------------------------------------------- *)
(** *** Round trips *)

(** [get] on a key that has a value: a span of bytes over the value, at the
    address the store maps it to. *)
Lemma get_stored (K : CType) (w : DbiWrapper) (key : ptr) (t : txn_t)
    (v : list byte) :
  sizeof K <> 0 ->
  stored t (c_str (m_dbName w)) (deref K key) = Some v ->
  DbiWrapper_get K w key t =
    Ok (mkSpan (mkPtr (t_map t (c_str (m_dbName w)) (deref K key)) v)
               (Z.of_nat (length v))) t.
Proof.
  intros HK Hs. unfold stored in Hs.
  destruct (t_dbs t !! c_str (m_dbName w)) as [tbl |] eqn:E; [| discriminate].
  cbn in Hs.
  pose proof (dbi_existing w t tbl E) as Hdbi.
  pose proof (mdb_get_open K key (c_str (m_dbName w)) t tbl HK E) as Hget.
  rewrite Hs in Hget.
  rewrite (get_by_code (B := backend) K w key t t _ _ _ Hdbi Hget).
  reflexivity.
Qed.

(** A transaction begun after the commit of a read-write transaction sees
    what that transaction left. *)
Lemma stored_after_commit (t' : txn_t) (flags : Z) (name : string)
    (k : list byte) :
  t_rdonly t' = false ->
  stored (txn_begin (txn_commit t') flags) name k = stored t' name k /\
  t_map (txn_begin (txn_commit t') flags) = e_map (txn_commit t').
Proof.
  intros R. unfold stored. cbn. unfold Store.txn_begin, Store.txn_commit. cbn.
  rewrite R. split; reflexivity.
Qed.

Lemma deref_length (T : CType) (p : ptr) :
  0 <= sizeof T <= Z.of_nat (length (p_bytes p)) ->
  Z.of_nat (length (deref T p)) = sizeof T.
Proof. intros H. unfold deref. rewrite length_take_le; lia. Qed.

Lemma MapDB_Pod_Pod_new_inv (K V : CType) (name : string) (db : MapDB_Pod_Pod) :
  MapDB_Pod_Pod_new K V name = Some db ->
  db = mkPodPod K V (DbiWrapper_new name) /\
  is_valid_keyval_type K = true /\ is_valid_keyval_type V = true.
Proof.
  unfold MapDB_Pod_Pod_new.
  destruct (is_valid_keyval_type K), (is_valid_keyval_type V);
    cbn; intros [= <-]; auto.
Qed.

Lemma MapDB_Pod_PodArray_new_inv (K E : CType) (name : string)
    (db : MapDB_Pod_PodArray) :
  MapDB_Pod_PodArray_new K E name = Some db ->
  db = mkPodArr K E (DbiWrapper_new name) /\
  is_valid_keyval_type K = true /\ is_valid_keyval_type E = true.
Proof.
  unfold MapDB_Pod_PodArray_new.
  destruct (is_valid_keyval_type K), (is_valid_keyval_type E);
    cbn; intros [= <-]; auto.
Qed.

(** C2, as stated, fails: [long double] passes the layout predicate (it is
    POD and its size, 16, is a multiple of 8) and has alignment 16; a pair
    of such objects is stored and committed, the store maps the value at
    address 4040, a multiple of 8 and not of 16, and the [get] of a later
    transaction fails the alignment assertion of [asType]: the process is
    stopped, no value is returned. *)
Lemma MapDB_Pod_Pod_get_aborts_unaligned :
  let db := mkPodPod long_double_t long_double_t (DbiWrapper_new "t") in
  let t := openWriteTxn env_4040 in
  let t' := written "t" (p_bytes val16) (p_bytes val16) (created "t" t) in
  is_valid_keyval_type long_double_t = true /\
  MapDB_Pod_Pod_new long_double_t long_double_t "t" = Some db /\
  MapDB_Pod_Pod_put db val16 val16 t = Ok tt t' /\
  e_map (txn_commit t') "t" (p_bytes val16) = 4040 /\
  MapDB_Pod_Pod_get db val16 (openReadTxn (txn_commit t')) = Abort.
Proof. intros db t t'. repeat split. Qed.

(** C2 (amended): a key/value pair of types that pass the layout predicate,
    stored with [put] in a transaction that is then committed, is read back
    by [get] in any transaction begun afterwards, provided the address the
    store maps the value to is aligned for the value type: [get] returns a
    reference to an object byte-identical to the stored value. *)
Theorem MapDB_Pod_Pod_put_get_roundtrip (K V : CType) (name : string)
    (db : MapDB_Pod_Pod) (key val : ptr) (t t' : txn_t) (flags : Z) :
  MapDB_Pod_Pod_new K V name = Some db ->
  wf_type V ->
  sizeof V <= Z.of_nat (length (p_bytes val)) ->
  MapDB_Pod_Pod_put db key val t = Ok tt t' ->
  e_map (txn_commit t') (c_str name) (deref K key) mod alignof V = 0 ->
  let t2 := txn_begin (txn_commit t') flags in
  exists r, MapDB_Pod_Pod_get db key t2 = Ok r t2 /\
            deref V r = deref V val.
Proof.
  intros Hnew (HV & _ & _) Hlen Hput Hal t2.
  apply MapDB_Pod_Pod_new_inv in Hnew as (-> & _ & _).
  unfold MapDB_Pod_Pod_put in Hput. cbn [pp_TAllKey pp_TAllVal pp_dbiWrap] in Hput.
  apply put_Ok_inv in Hput as (Hs & R & _ & HK & _).
  change (m_dbName (DbiWrapper_new name)) with name in Hs.
  destruct (stored_after_commit t' flags (c_str name) (deref K key) R)
    as [Hs2 Hm2].
  fold t2 in Hs2, Hm2. rewrite Hs in Hs2.
  pose proof (get_stored K (DbiWrapper_new name) key t2 _ HK Hs2) as Hget.
  cbn [m_dbName DbiWrapper_new] in Hget. rewrite Hm2 in Hget.
  pose proof (deref_length V val ltac:(lia)) as Hl.
  exists (mkPtr (e_map (txn_commit t') (c_str name) (deref K key))
                (deref V val)).
  split.
  - unfold MapDB_Pod_Pod_get, bind. cbn [pp_TAllKey pp_TAllVal pp_dbiWrap].
    rewrite Hget. unfold asserted, asType, is_aligned_for, size, begin_.
    cbn [m_size m_data p_addr sizeof unsigned_char].
    rewrite Hl, Z.mul_1_l, wrap64_small, Z.eqb_refl, Hal by lia.
    reflexivity.
  - unfold deref at 1. cbn [p_bytes]. apply take_ge. lia.
Qed.

Lemma MapDB_Pod_Pod_put_get_roundtrip_witness :
  let db := mkPodPod uint64_t uint64_t (DbiWrapper_new "t") in
  let t := openWriteTxn fresh_env in
  let t' := written "t" (p_bytes key1) (p_bytes val1) (created "t" t) in
  (MapDB_Pod_Pod_new uint64_t uint64_t "t" = Some db /\
   wf_type uint64_t /\
   sizeof uint64_t <= Z.of_nat (length (p_bytes val1)) /\
   MapDB_Pod_Pod_put db key1 val1 t = Ok tt t' /\
   e_map (txn_commit t') (c_str "t") (deref uint64_t key1)
     mod alignof uint64_t = 0) /\
  exists r, MapDB_Pod_Pod_get db key1 (openReadTxn (txn_commit t'))
              = Ok r (openReadTxn (txn_commit t')) /\
            deref uint64_t r = deref uint64_t val1.
Proof.
  intros db t t'.
  assert (H1 : MapDB_Pod_Pod_new uint64_t uint64_t "t" = Some db) by reflexivity.
  assert (H2 : wf_type uint64_t) by solve_closed.
  assert (H3 : sizeof uint64_t <= Z.of_nat (length (p_bytes val1)))
    by solve_closed.
  assert (H4 : MapDB_Pod_Pod_put db key1 val1 t = Ok tt t') by reflexivity.
  assert (H5 : e_map (txn_commit t') (c_str "t") (deref uint64_t key1)
               mod alignof uint64_t = 0) by reflexivity.
  split; [auto |].
  exact (MapDB_Pod_Pod_put_get_roundtrip uint64_t uint64_t "t" db key1 val1
           t t' MDB_RDONLY H1 H2 H3 H4 H5).
Defined.

(** An array as the concatenation of its elements' object representations. *)
Lemma concat_uniform_length (n : nat) (elems : list (list byte)) :
  Forall (fun x => length x = n) elems ->
  length (concat elems) = (length elems * n)%nat.
Proof.
  induction 1 as [| x l Hx _ IH]; cbn; [reflexivity |].
  rewrite length_app, IH, Hx. reflexivity.
Qed.

Lemma concat_uniform_chunk (n : nat) (elems : list (list byte)) (i : nat)
    (x : list byte) :
  Forall (fun x => length x = n) elems ->
  elems !! i = Some x ->
  take n (drop (i * n) (concat elems)) = x.
Proof.
  intros H. revert i. induction H as [| y l Hy _ IH]; intros i Hi.
  - discriminate.
  - destruct i as [| i]; cbn in Hi |- *.
    + injection Hi as <-. apply take_app_length'. symmetry. exact Hy.
    + rewrite <- Hy at 2. rewrite drop_app_add. apply IH, Hi.
Qed.





End StoreFacts.

(* ====================================================================== *)
(** ** Further properties: map size, padding, spans *)
(* ====================================================================== *)

(** X1: the map size handed to the store is the requested size rounded up to
    the next multiple of 4096: a multiple of 4096, at least the request and
    less than 4096 above it; a request that is a multiple already is kept.
    The request must leave room for the rounding in [size_t]. *)
Theorem DatabaseEnvironment_mapsize_rounds_up (maxSize : Z) :
  0 <= maxSize <= 2 ^ 64 - 4096 ->
  DatabaseEnvironment_mapsize maxSize mod 4096 = 0 /\
  maxSize <= DatabaseEnvironment_mapsize maxSize < maxSize + 4096 /\
  (maxSize mod 4096 = 0 -> DatabaseEnvironment_mapsize maxSize = maxSize).
Proof.
  intros H. unfold DatabaseEnvironment_mapsize.
  destruct (Z.eqb_spec (maxSize mod 4096) 0) as [E | E].
  - repeat split; [exact E | lia ..].
  - assert (Hlt : maxSize < 2 ^ 64 - 4096).
    { destruct (Z.eq_dec maxSize (2 ^ 64 - 4096)) as [-> | ?]; [| lia].
      exfalso. apply E. reflexivity. }
    assert (Hr : 0 < maxSize mod 4096 < 4096)
      by (pose proof (Z.mod_pos_bound maxSize 4096); lia).
    rewrite (wrap64_small (maxSize + 4096)) by lia.
    rewrite wrap64_small by lia.
    repeat split; [| lia | lia | contradiction].
    replace (maxSize + 4096 - maxSize mod 4096)
      with (4096 * (maxSize / 4096 + 1))
      by (pose proof (Z.div_mod maxSize 4096); lia).
    rewrite Z.mul_comm. apply Z.mod_mul. lia.
Qed.

(** The default request of 1 GB is a multiple of 4096 and is kept. *)
Lemma DatabaseEnvironment_mapsize_rounds_up_witness :
  0 <= defaultMaxSize <= 2 ^ 64 - 4096 /\
  (DatabaseEnvironment_mapsize defaultMaxSize mod 4096 = 0 /\
   defaultMaxSize <= DatabaseEnvironment_mapsize defaultMaxSize
     < defaultMaxSize + 4096 /\
   (defaultMaxSize mod 4096 = 0 ->
    DatabaseEnvironment_mapsize defaultMaxSize = defaultMaxSize)).
Proof.
  assert (H : 0 <= defaultMaxSize <= 2 ^ 64 - 4096) by solve_closed.
  split; [exact H |].
  apply (DatabaseEnvironment_mapsize_rounds_up defaultMaxSize H).
Defined.

(** The bytes of a freshly constructed wrapper: the payload, then zeros. *)
Lemma EightPadded_ctor_bytes (T P : CType) (this d : list byte) :
  Z.of_nat (length this) = sizeof P ->
  Z.of_nat (length d) = sizeof T ->
  EightPadded_ctor T P this d
    = d ++ drop (length d) (replicate (length this) x00).
Proof.
  intros Hthis Hd. unfold EightPadded_ctor, assign_data, memset.
  replace (Z.to_nat (sizeof T)) with (length d) by lia.
  replace (Z.to_nat (sizeof P)) with (length this) by lia.
  rewrite firstn_all, drop_all, app_nil_r. reflexivity.
Qed.

Lemma EightPadded_ctor_length (T : CType) (this d : list byte) :
  Z.of_nat (length this) = sizeof (EightPadded T) ->
  Z.of_nat (length d) = sizeof T ->
  Z.of_nat (length (EightPadded_ctor T (EightPadded T) this d))
    = sizeof (EightPadded T).
Proof.
  intros Hthis Hd.
  pose proof (EightPadded_sizeof_ge T) as Hle.
  rewrite EightPadded_ctor_bytes by assumption.
  rewrite length_app, length_drop, length_replicate. lia.
Qed.

Lemma EightPadded_ctor_same (T P : CType) (this1 this2 d : list byte) :
  Z.of_nat (length this1) = sizeof P ->
  Z.of_nat (length this2) = sizeof P ->
  Z.of_nat (length d) = sizeof T ->
  EightPadded_ctor T P this1 d = EightPadded_ctor T P this2 d.
Proof.
  intros H1 H2 Hd. rewrite !EightPadded_ctor_bytes by assumption.
  replace (length this1) with (length this2) by lia. reflexivity.
Qed.

(** X2: the object representation of [EightPadded<T>{d}] depends on [d] alone,
    never on what its storage held before, and determines [d]: two
    wrappers built anywhere are byte-identical exactly when their payloads
    are.  This is what lets padded keys be compared as raw bytes. *)
Theorem EightPadded_ctor_canonical (T : CType) (this1 this2 d1 d2 : list byte) :
  Z.of_nat (length this1) = sizeof (EightPadded T) ->
  Z.of_nat (length this2) = sizeof (EightPadded T) ->
  Z.of_nat (length d1) = sizeof T ->
  Z.of_nat (length d2) = sizeof T ->
  EightPadded_ctor T (EightPadded T) this1 d1
    = EightPadded_ctor T (EightPadded T) this2 d2 <-> d1 = d2.
Proof.
  intros H1 H2 Hd1 Hd2. split.
  - rewrite !EightPadded_ctor_bytes by assumption. intros E.
    apply app_inj_1 in E as [E _]; [exact E | lia].
  - intros <-. apply EightPadded_ctor_same; assumption.
Qed.

Lemma EightPadded_ctor_canonical_witness :
  (Z.of_nat (length dirty8) = sizeof (EightPadded char_t) /\
   Z.of_nat (length other8) = sizeof (EightPadded char_t) /\
   Z.of_nat (length char_c) = sizeof char_t) /\
  (EightPadded_ctor char_t (EightPadded char_t) dirty8 char_c
     = EightPadded_ctor char_t (EightPadded char_t) other8 char_c
   <-> char_c = char_c).
Proof.
  split; [repeat split |].
  apply (EightPadded_ctor_canonical char_t dirty8 other8 char_c char_c);
    reflexivity.
Defined.

(** The wrapper of a type with the layout the wrapper relies on has that
    layout itself. *)
Lemma EightPadded_align_ok (T : CType) : align_ok T -> align_ok (EightPadded T).
Proof.
  intros H. pose proof (EightPadded_sizeof T H) as Hs.
  pose proof (pad_to_8_bounds (sizeof T)) as [Hm _]. rewrite <- Hs in Hm.
  destruct (align_ok_cases T H) as [Hle | (Hgt & Hsa & _)].
  - left. rewrite (proj2 (EightPadded_layout T)). lia.
  - right. rewrite !(proj2 (EightPadded_layout T)), (proj1 (EightPadded_layout T)).
    rewrite Z.max_r by lia.
    destruct H as [H | [H8 _]]; [lia |].
    split; [exact H8 |]. rewrite pad_to_multiple by exact Hsa. exact Hsa.
Qed.

Lemma EightPadded_is_valid (T : CType) :
  align_ok T -> is_valid_keyval_type (EightPadded T) = is_pod T.
Proof.
  intros H. pose proof (EightPadded_sizeof T H) as Hs.
  pose proof (pad_to_8_bounds (sizeof T)) as [Hm _]. rewrite <- Hs in Hm.
  unfold is_valid_keyval_type. rewrite Hm.
  unfold is_pod, is_trivial. cbn. apply andb_true_r.
Qed.

(** X3: wrapping decides the layout predicate by POD-ness alone: the wrapper of
    [T] is a valid key/value type exactly when [T] is POD, whatever the size
    of [T]; a [T] whose size is a multiple of 8 already gets no padding, and
    wrapping a wrapper again adds nothing. *)
Theorem EightPadded_valid_iff_pod (T : CType) :
  align_ok T ->
  is_valid_keyval_type (EightPadded T) = is_pod T /\
  (sizeof T mod 8 = 0 -> sizeof (EightPadded T) = sizeof T) /\
  sizeof (EightPadded (EightPadded T)) = sizeof (EightPadded T).
Proof.
  intros H. pose proof (EightPadded_sizeof T H) as Hs.
  pose proof (pad_to_8_bounds (sizeof T)) as [Hm _]. rewrite <- Hs in Hm.
  split; [apply EightPadded_is_valid, H | split].
  - intros H0. rewrite Hs. apply pad_to_multiple, H0.
  - rewrite (EightPadded_sizeof (EightPadded T))
      by (apply EightPadded_align_ok, H).
    apply pad_to_multiple, Hm.
Qed.

Lemma EightPadded_valid_iff_pod_witness :
  align_ok char_t /\
  (is_valid_keyval_type (EightPadded char_t) = is_pod char_t /\
   (sizeof char_t mod 8 = 0 -> sizeof (EightPadded char_t) = sizeof char_t) /\
   sizeof (EightPadded (EightPadded char_t)) = sizeof (EightPadded char_t)).
Proof.
  assert (H : align_ok char_t) by (left; solve_closed).
  split; [exact H |].
  exact (EightPadded_valid_iff_pod char_t H).
Defined.

Lemma ptr_add_add (T : CType) (p : ptr) (a b : Z) :
  0 <= sizeof T -> 0 <= a -> 0 <= b ->
  ptr_add T (ptr_add T p a) b = ptr_add T p (a + b).
Proof.
  intros Hs Ha Hb. unfold ptr_add. cbn [p_addr p_bytes]. f_equal.
  - unfold wrap64. rewrite Zplus_mod_idemp_l. f_equal. lia.
  - rewrite drop_drop. f_equal. nia.
Qed.



Lemma subSpan_Some (T : CType) (sp : LmdbSpan) (offset count : Z) :
  0 <= offset -> 0 <= count ->
  offset + count <= size sp -> size sp < 2 ^ 64 ->
  subSpan T sp offset count
    = Some (mkSpan (ptr_add T (begin_ sp) offset) count).
Proof.
  intros Ho Hc Hb Hs. unfold subSpan.
  rewrite wrap64_small by lia.
  destruct (Z.leb_spec (offset + count) (size sp)); [reflexivity | lia].
Qed.

(** X5: a sub-span that lies within its parent has the requested size, and its
    [i]-th element is the parent's element [offset + i], which the parent's
    own bounds check accepts. *)
Theorem subSpan_index (T : CType) (sp : LmdbSpan) (offset count i : Z) :
  0 <= sizeof T ->
  0 <= offset -> 0 <= count ->
  offset + count <= size sp -> size sp < 2 ^ 64 ->
  0 <= i < count ->
  exists sub,
    subSpan T sp offset count = Some sub /\
    size sub = count /\
    index T sub i = index T sp (offset + i) /\
    is_Some (index T sp (offset + i)).
Proof.
  intros Hs Ho Hc Hb Hsz Hi. eexists. split; [| split; [| split]].
  - apply subSpan_Some; assumption.
  - reflexivity.
  - unfold index, begin_, size in *. cbn [m_size m_data].
    destruct (Z.ltb_spec i count); [| lia].
    destruct (Z.ltb_spec (offset + i) (m_size sp)); [| lia].
    cbn. rewrite ptr_add_add by lia. reflexivity.
  - unfold index, size in *.
    destruct (Z.ltb_spec (offset + i) (m_size sp)); [cbn; eauto | lia].
Qed.

Lemma subSpan_index_witness :
  (0 <= sizeof uint64_t /\ 0 <= 1 /\ 0 <= 2 /\
   1 + 2 <= size four_uint64 /\ size four_uint64 < 2 ^ 64 /\ 0 <= 1 < 2) /\
  exists sub,
    subSpan uint64_t four_uint64 1 2 = Some sub /\
    size sub = 2 /\
    index uint64_t sub 1 = index uint64_t four_uint64 (1 + 1) /\
    is_Some (index uint64_t four_uint64 (1 + 1)).
Proof.
  assert (H : 0 <= sizeof uint64_t /\ 0 <= 1 /\ 0 <= 2 /\
              1 + 2 <= size four_uint64 /\ size four_uint64 < 2 ^ 64 /\
              0 <= 1 < 2) by solve_closed.
  split; [exact H |]. destruct H as (H1 & H2 & H3 & H4 & H5 & H6).
  exact (subSpan_index uint64_t four_uint64 1 2 1 H1 H2 H3 H4 H5 H6).
Defined.

(** X6: taking a sub-span of a sub-span is taking one sub-span of the parent at
    the sum of the offsets. *)
Theorem subSpan_subSpan (T : CType) (sp s1 : LmdbSpan) (o1 c1 o2 c2 : Z) :
  0 <= sizeof T ->
  0 <= o1 -> 0 <= c1 -> o1 + c1 < 2 ^ 64 ->
  subSpan T sp o1 c1 = Some s1 ->
  0 <= o2 -> 0 <= c2 -> o2 + c2 <= c1 ->
  subSpan T s1 o2 c2 = subSpan T sp (o1 + o2) c2 /\
  is_Some (subSpan T s1 o2 c2).
Proof.
  intros Hs Ho1 Hc1 Hfit H1 Ho2 Hc2 Hb2.
  unfold subSpan in H1. rewrite wrap64_small in H1 by lia.
  destruct (Z.leb_spec (o1 + c1) (size sp)) as [Hb1 |]; [| discriminate].
  injection H1 as <-.
  unfold subSpan, size, begin_ in *. cbn [m_size m_data].
  rewrite !wrap64_small by lia.
  destruct (Z.leb_spec (o2 + c2) c1); [| lia].
  destruct (Z.leb_spec (o1 + o2 + c2) (m_size sp)); [| lia].
  cbn. rewrite ptr_add_add by lia. split; [reflexivity | eauto].
Qed.

Lemma subSpan_subSpan_witness :
  let s1 := mkSpan (ptr_add uint64_t (begin_ four_uint64) 1) 3 in
  (0 <= sizeof uint64_t /\ 0 <= 1 /\ 0 <= 3 /\ 1 + 3 < 2 ^ 64 /\
   subSpan uint64_t four_uint64 1 3 = Some s1 /\
   0 <= 1 /\ 0 <= 2 /\ 1 + 2 <= 3) /\
  (subSpan uint64_t s1 1 2 = subSpan uint64_t four_uint64 (1 + 1) 2 /\
   is_Some (subSpan uint64_t s1 1 2)).
Proof.
  intros s1.
  assert (H : 0 <= sizeof uint64_t /\ 0 <= 1 /\ 0 <= 3 /\ 1 + 3 < 2 ^ 64 /\
              subSpan uint64_t four_uint64 1 3 = Some s1 /\
              0 <= 1 /\ 0 <= 2 /\ 1 + 2 <= 3) by solve_closed.
  split; [exact H |].
  destruct H as (H1 & H2 & H3 & H4 & H5 & H6 & H7 & H8).
  exact (subSpan_subSpan uint64_t four_uint64 s1 1 3 1 2
           H1 H2 H3 H4 H5 H6 H7 H8).
Defined.

(** X7: the bounds assertion of [subSpan] adds offset and count in [size_t]:
    when the sum passes 2^64 it is the wrapped sum that is compared, so the
    assertion accepts a request that reaches far beyond the parent. *)
Theorem subSpan_bounds_check_wraps (T : CType) (sp : LmdbSpan)
    (offset count : Z) :
  0 <= offset < 2 ^ 64 -> 0 <= count < 2 ^ 64 ->
  2 ^ 64 <= offset + count ->
  offset + count - 2 ^ 64 <= size sp ->
  subSpan T sp offset count
    = Some (mkSpan (ptr_add T (begin_ sp) offset) count).
Proof.
  intros Ho Hc Hw Hb. unfold subSpan.
  assert (E : wrap64 (offset + count) = offset + count - 2 ^ 64).
  { unfold wrap64. symmetry. apply (Z.mod_unique _ _ 1); lia. }
  rewrite E.
  destruct (Z.leb_spec (offset + count - 2 ^ 64) (size sp)); [reflexivity | lia].
Qed.

Lemma subSpan_bounds_check_wraps_witness :
  (0 <= 2 ^ 64 - 1 < 2 ^ 64 /\ 0 <= 2 < 2 ^ 64 /\
   2 ^ 64 <= 2 ^ 64 - 1 + 2 /\ 2 ^ 64 - 1 + 2 - 2 ^ 64 <= size four_uint64) /\
  subSpan uint64_t four_uint64 (2 ^ 64 - 1) 2
    = Some (mkSpan (ptr_add uint64_t (begin_ four_uint64) (2 ^ 64 - 1)) 2).
Proof.
  assert (H : 0 <= 2 ^ 64 - 1 < 2 ^ 64 /\ 0 <= 2 < 2 ^ 64 /\
              2 ^ 64 <= 2 ^ 64 - 1 + 2 /\
              2 ^ 64 - 1 + 2 - 2 ^ 64 <= size four_uint64) by solve_closed.
  split; [exact H |]. destruct H as (H1 & H2 & H3 & H4).
  exact (subSpan_bounds_check_wraps uint64_t four_uint64 (2 ^ 64 - 1) 2
           H1 H2 H3 H4).
Defined.

(* ====================================================================== *)
(** ** Further properties: DbiWrapper over any store *)
(* ====================================================================== *)

Section AnyStoreMore.
Context {B : Backend}.

(** X8: [get] never trips an assertion: the span it builds has elements of one
    byte, so the size and alignment checks of the span constructor always
    hold.  It returns or throws, and leaves the transaction as the
    table-open step left it. *)
Theorem DbiWrapper_get_never_aborts (K : CType) (w : DbiWrapper) (key : ptr)
    (t : txn) :
  DbiWrapper_get K w key t <> Abort /\
  txn_after (DbiWrapper_get K w key t) = txn_after (dbi w t).
Proof.
  pose proof (get_txn_after K w key t) as H. split; [| exact H].
  intros E. rewrite E in H. cbn in H.
  destruct (dbi w t) as [h t1 | e t1 |] eqn:Hopen; try discriminate.
  exact (dbi_never_aborts w t Hopen).
Qed.

Lemma put_pattern_same (w : DbiWrapper) (mkey mval : MDB_val)
    (o1 o2 : string) (t : txn) :
  let run origin :=
    bind (dbi w) (fun h t0 =>
      let '(rc, t1) := mdb_put t0 h mkey mval 0 in
      if negb (rc =? 0) then Throw (error_raise origin rc) t1
      else Ok tt t1) t in
  txn_after (run o1) = txn_after (run o2) /\
  (forall t', run o1 = Ok tt t' <-> run o2 = Ok tt t').
Proof.
  cbn. unfold bind.
  destruct (dbi w t) as [h t1 | e t1 |]; [| split; [reflexivity | tauto] ..].
  destruct (mdb_put t1 h mkey mval 0) as [rc t2].
  destruct (rc =? 0); cbn; split; try reflexivity; intros t'; split;
    try discriminate; auto.
Qed.

(** X9: [putArray] is [put] of the flattened buffer: for a value type whose size
    is the byte length of the array, both leave the same transaction and
    succeed together; they differ in the origin string of the exception
    only. *)
Theorem putArray_is_put_of_buffer (K VElem V : CType) (w : DbiWrapper)
    (key dat : ptr) (count : Z) (t : txn) :
  sizeof V = wrap64 (sizeof VElem * count) ->
  txn_after (DbiWrapper_putArray K VElem w key dat count t)
    = txn_after (DbiWrapper_put K V w key dat t) /\
  (forall t', DbiWrapper_putArray K VElem w key dat count t = Ok tt t' <->
              DbiWrapper_put K V w key dat t = Ok tt t').
Proof.
  intros HV. unfold DbiWrapper_putArray, DbiWrapper_put. rewrite HV.
  apply (put_pattern_same w (mkVal (sizeof K) key)
           (mkVal (wrap64 (sizeof VElem * count)) dat)
           "DbiWraper PUT ARRAY error" "DbiWrapper PUT error" t).
Qed.

End AnyStoreMore.

(* ====================================================================== *)
(** ** Further properties: DbiWrapper and the typed maps over the store *)
(* ====================================================================== *)

Module StoreMore.
Import Store StoreFacts.

Lemma exists_stored (K : CType) (w : DbiWrapper) (key : ptr) (t : txn_t)
    (v : list byte) :
  sizeof K <> 0 ->
  stored t (c_str (m_dbName w)) (deref K key) = Some v ->
  DbiWrapper_exists K w key t = Ok true t.
Proof.
  intros HK Hs. unfold stored in Hs.
  destruct (t_dbs t !! c_str (m_dbName w)) as [tbl |] eqn:E; [| discriminate].
  cbn in Hs.
  pose proof (dbi_existing w t tbl E) as Hdbi.
  pose proof (mdb_get_open K key (c_str (m_dbName w)) t tbl HK E) as Hget.
  rewrite Hs in Hget.
  rewrite (exists_by_code (B := backend) store_laws K w key t t _ _ _
             Hdbi Hget).
  reflexivity.
Qed.

(** What [get] and [exists] give when the table-open step succeeds: they
    depend on the stored value alone. *)
Lemma open_outcomes (K : CType) (w : DbiWrapper) (key : ptr) (t t1 : txn_t)
    (h : string) :
  sizeof K <> 0 ->
  dbi w t = Ok h t1 ->
  DbiWrapper_get K w key t
    = match stored t (c_str (m_dbName w)) (deref K key) with
      | Some v =>
          Ok (mkSpan (mkPtr (t_map t (c_str (m_dbName w)) (deref K key)) v)
                     (Z.of_nat (length v))) t1
      | None => Throw (not_found_error "DbiWrapper GET error") t1
      end /\
  DbiWrapper_exists K w key t
    = Ok (bool_decide (is_Some (stored t (c_str (m_dbName w)) (deref K key))))
         t1.
Proof.
  intros HK Hdbi.
  pose proof (dbi_Ok_frame w t t1 h (c_str (m_dbName w)) (deref K key) Hdbi)
    as Hframe.
  pose proof (dbi_Ok_store w t t1 h Hdbi) as (-> & [tbl Htbl] & _ & Hm & _).
  pose proof (mdb_get_open K key _ t1 tbl HK Htbl) as Hget.
  unfold stored in Hframe at 1. rewrite Htbl in Hframe. cbn in Hframe.
  rewrite Hframe, Hm in Hget.
  destruct (stored t (c_str (m_dbName w)) (deref K key)) as [v |];
    rewrite (get_by_code (B := backend) K _ key t t1 _ _ _ Hdbi Hget),
            (exists_by_code (B := backend) store_laws K _ key t t1 _ _ _
               Hdbi Hget);
    split; reflexivity.
Qed.

(** X10: the byte-level round trip needs no alignment: after a [put] that
    returned, [get] with any key object of the same bytes returns a span of
    bytes over exactly the value that was handed over, in the same
    transaction and in every transaction begun after its commit. *)
Theorem DbiWrapper_put_get_bytes (K V : CType) (w : DbiWrapper)
    (key key2 val : ptr) (t t' : txn_t) :
  DbiWrapper_put K V w key val t = Ok tt t' ->
  deref K key2 = deref K key ->
  let sp := mkSpan (mkPtr (t_map t (c_str (m_dbName w)) (deref K key))
                          (deref V val))
                   (Z.of_nat (length (deref V val))) in
  DbiWrapper_get K w key2 t' = Ok sp t' /\
  forall flags,
    DbiWrapper_get K w key2 (txn_begin (txn_commit t') flags)
      = Ok sp (txn_begin (txn_commit t') flags).
Proof.
  intros Hput Hkey sp.
  apply put_Ok_inv in Hput as (Hs & R & Hm & HK & _).
  split.
  - rewrite (get_stored K w key2 t' (deref V val) HK) by (rewrite Hkey; exact Hs).
    unfold sp. rewrite Hkey, Hm. reflexivity.
  - intros flags.
    destruct (stored_after_commit t' flags (c_str (m_dbName w)) (deref K key) R)
      as [Hs2 Hm2].
    rewrite Hs in Hs2.
    rewrite (get_stored K w key2 _ (deref V val) HK) by (rewrite Hkey; exact Hs2).
    unfold sp. rewrite Hkey, Hm2. cbn [e_map Store.txn_commit]. rewrite Hm.
    reflexivity.
Qed.

Lemma DbiWrapper_put_get_bytes_witness :
  let t := openWriteTxn fresh_env in
  let t' := written "t" (p_bytes key1) (p_bytes val1) (created "t" t) in
  let sp := mkSpan (mkPtr 4096 (p_bytes val1)) 8 in
  (DbiWrapper_put uint64_t uint64_t wrapper_t key1 val1 t = Ok tt t' /\
   deref uint64_t key1 = deref uint64_t key1) /\
  (DbiWrapper_get uint64_t wrapper_t key1 t' = Ok sp t' /\
   forall flags,
     DbiWrapper_get uint64_t wrapper_t key1 (txn_begin (txn_commit t') flags)
       = Ok sp (txn_begin (txn_commit t') flags)).
Proof.
  intros t t' sp.
  assert (H1 : DbiWrapper_put uint64_t uint64_t wrapper_t key1 val1 t = Ok tt t')
    by reflexivity.
  split; [split; [exact H1 | reflexivity] |].
  exact (DbiWrapper_put_get_bytes uint64_t uint64_t wrapper_t key1 key1 val1
           t t' H1 eq_refl).
Defined.

(** X11: after a [put] that returned, [exists] is true for that key, at once in
    the same transaction and in every transaction begun after its commit,
    and it changes neither. *)
Theorem exists_after_put (K V : CType) (w : DbiWrapper) (key val : ptr)
    (t t' : txn_t) :
  DbiWrapper_put K V w key val t = Ok tt t' ->
  DbiWrapper_exists K w key t' = Ok true t' /\
  forall flags,
    DbiWrapper_exists K w key (txn_begin (txn_commit t') flags)
      = Ok true (txn_begin (txn_commit t') flags).
Proof.
  intros Hput. apply put_Ok_inv in Hput as (Hs & R & _ & HK & _).
  split.
  - exact (exists_stored K w key t' _ HK Hs).
  - intros flags.
    destruct (stored_after_commit t' flags (c_str (m_dbName w)) (deref K key) R)
      as [Hs2 _].
    rewrite Hs in Hs2.
    exact (exists_stored K w key _ _ HK Hs2).
Qed.

Lemma exists_after_put_witness :
  let t := openWriteTxn fresh_env in
  let t' := written "t" (p_bytes key1) (p_bytes val1) (created "t" t) in
  DbiWrapper_put uint64_t uint64_t wrapper_t key1 val1 t = Ok tt t' /\
  (DbiWrapper_exists uint64_t wrapper_t key1 t' = Ok true t' /\
   forall flags,
     DbiWrapper_exists uint64_t wrapper_t key1 (txn_begin (txn_commit t') flags)
       = Ok true (txn_begin (txn_commit t') flags)).
Proof.
  intros t t'.
  assert (H1 : DbiWrapper_put uint64_t uint64_t wrapper_t key1 val1 t = Ok tt t')
    by reflexivity.
  split; [exact H1 |].
  exact (exists_after_put uint64_t uint64_t wrapper_t key1 val1 t t' H1).
Defined.

(* -------------------------------------------------------------------- *)
(** *** Writes: overwriting, other keys, read-only transactions *)

(** X12: a second [put] under a key that already has a value replaces the
    value, whatever the sizes of the two values: when both writes return,
    [get] returns the bytes of the second and nothing of the first. *)
Theorem put_overwrites (K V1 V2 : CType) (w : DbiWrapper)
    (key val1 val2 : ptr) (t t1 t2 : txn_t) :
  DbiWrapper_put K V1 w key val1 t = Ok tt t1 ->
  DbiWrapper_put K V2 w key val2 t1 = Ok tt t2 ->
  stored t1 (c_str (m_dbName w)) (deref K key) = Some (deref V1 val1) /\
  stored t2 (c_str (m_dbName w)) (deref K key) = Some (deref V2 val2) /\
  DbiWrapper_get K w key t2
    = Ok (mkSpan (mkPtr (t_map t (c_str (m_dbName w)) (deref K key))
                        (deref V2 val2))
                 (Z.of_nat (length (deref V2 val2)))) t2.
Proof.
  intros H1 H2.
  apply put_Ok_inv in H1 as (Hs1 & _ & Hm & HK & _).
  apply put_Ok_inv in H2 as (Hs2 & _ & Hm2 & _ & _).
  split; [exact Hs1 | split; [exact Hs2 |]].
  rewrite (get_stored K w key _ _ HK Hs2), Hm2, Hm. reflexivity.
Qed.

Lemma put_overwrites_witness :
  let t := openWriteTxn fresh_env in
  let t1 := written "t" (p_bytes key1) (p_bytes val1) (created "t" t) in
  let t2 := written "t" (p_bytes key1) (p_bytes arr_abc) t1 in
  (DbiWrapper_put uint64_t uint64_t wrapper_t key1 val1 t = Ok tt t1 /\
   DbiWrapper_put uint64_t three_uint64_t wrapper_t key1 arr_abc t1
     = Ok tt t2) /\
  (stored t1 (c_str (m_dbName wrapper_t)) (deref uint64_t key1)
     = Some (deref uint64_t val1) /\
   stored t2 (c_str (m_dbName wrapper_t)) (deref uint64_t key1)
     = Some (deref three_uint64_t arr_abc) /\
   DbiWrapper_get uint64_t wrapper_t key1 t2
     = Ok (mkSpan (mkPtr (t_map t (c_str (m_dbName wrapper_t))
                                (deref uint64_t key1))
                         (deref three_uint64_t arr_abc))
                  (Z.of_nat (length (deref three_uint64_t arr_abc)))) t2).
Proof.
  intros t t1 t2.
  assert (H1 : DbiWrapper_put uint64_t uint64_t wrapper_t key1 val1 t = Ok tt t1)
    by reflexivity.
  assert (H2 : DbiWrapper_put uint64_t three_uint64_t wrapper_t key1 arr_abc t1
               = Ok tt t2) by reflexivity.
  split; [split; [exact H1 | exact H2] |].
  exact (put_overwrites uint64_t uint64_t three_uint64_t wrapper_t
           key1 val1 arr_abc t t1 t2 H1 H2).
Defined.

Lemma written_frame (name : string) (k v : list byte) (t : txn_t)
    (name2 : string) (k2 : list byte) :
  name2 <> name \/ k2 <> k ->
  stored (written name k v t) name2 k2 = stored t name2 k2.
Proof.
  intros H. unfold stored, written, set_dbs. cbn.
  destruct (decide (name2 = name)) as [-> | Hne].
  - destruct H as [H | H]; [contradiction |].
    rewrite lookup_insert_eq. cbn. rewrite lookup_insert_ne by congruence.
    destruct (t_dbs t !! name); cbn; [reflexivity | apply lookup_empty].
  - rewrite lookup_insert_ne by congruence. reflexivity.
Qed.

Lemma put_Ok_frame (K V : CType) (w : DbiWrapper) (key val : ptr)
    (t t' : txn_t) (name2 : string) (k2 : list byte) :
  DbiWrapper_put K V w key val t = Ok tt t' ->
  name2 <> c_str (m_dbName w) \/ k2 <> deref K key ->
  stored t' name2 k2 = stored t name2 k2.
Proof.
  intros Hput Hne.
  apply put_pattern_Ok_inv in Hput as (t1 & Hopen & _ & _ & ->).
  rewrite <- (dbi_Ok_frame w t t1 _ name2 k2 Hopen).
  apply written_frame. exact Hne.
Qed.

(** A collection a [put] has written to is there for the next table-open
    step of the same wrapper, which changes nothing. *)
Lemma put_Ok_reopen (K V : CType) (w : DbiWrapper) (key val : ptr)
    (t t' : txn_t) :
  DbiWrapper_put K V w key val t = Ok tt t' ->
  dbi w t' = Ok (c_str (m_dbName w)) t' /\
  exists t1, dbi w t = Ok (c_str (m_dbName w)) t1.
Proof.
  intros Hput.
  pose proof (put_Ok_inv _ _ _ _ _ _ _ Hput) as (Hs & _).
  apply put_pattern_Ok_inv in Hput as (t1 & Hopen & _).
  split; [| eauto].
  unfold stored in Hs.
  destruct (t_dbs t' !! c_str (m_dbName w)) as [tbl |] eqn:E; [| discriminate].
  exact (dbi_existing w t' tbl E).
Qed.

(** X13: a [put] that returned changes nothing for any other key: [get] and
    [exists] through the same wrapper, for other key bytes, give after the
    [put] what they gave before it, and no entry of any other collection
    of the transaction has changed. *)
Theorem put_leaves_other_keys (K V : CType) (w : DbiWrapper) (key val : ptr)
    (t t' : txn_t) (K2 : CType) (key2 : ptr) :
  DbiWrapper_put K V w key val t = Ok tt t' ->
  sizeof K2 <> 0 ->
  deref K2 key2 <> deref K key ->
  outcome (DbiWrapper_get K2 w key2 t') = outcome (DbiWrapper_get K2 w key2 t) /\
  outcome (DbiWrapper_exists K2 w key2 t')
    = outcome (DbiWrapper_exists K2 w key2 t) /\
  (forall (other : string) (k : list byte),
     other <> c_str (m_dbName w) -> stored t' other k = stored t other k).
Proof.
  intros Hput HK2 Hne.
  pose proof (put_Ok_frame _ _ _ _ _ _ _ (c_str (m_dbName w)) (deref K2 key2)
                Hput (or_intror Hne)) as Hf.
  pose proof (put_Ok_inv _ _ _ _ _ _ _ Hput) as (_ & _ & Hm & _ & _).
  pose proof (put_Ok_reopen _ _ _ _ _ _ _ Hput) as (Hopen' & t1 & Hopen).
  destruct (open_outcomes K2 w key2 t t1 _ HK2 Hopen) as (Hg & He).
  destruct (open_outcomes K2 w key2 t' t' _ HK2 Hopen') as (Hg' & He').
  rewrite Hg, Hg', He, He', Hf, Hm.
  split; [| split; [reflexivity |]].
  - destruct (stored t (c_str (m_dbName w)) (deref K2 key2)); reflexivity.
  - intros other k Hother.
    exact (put_Ok_frame _ _ _ _ _ _ _ other k Hput (or_introl Hother)).
Qed.

Lemma put_leaves_other_keys_witness :
  let t := openWriteTxn fresh_env in
  let t' := written "t" (p_bytes key1) (p_bytes val1) (created "t" t) in
  (DbiWrapper_put uint64_t uint64_t wrapper_t key1 val1 t = Ok tt t' /\
   sizeof uint64_t <> 0 /\
   deref uint64_t key_other <> deref uint64_t key1) /\
  (outcome (DbiWrapper_get uint64_t wrapper_t key_other t')
     = outcome (DbiWrapper_get uint64_t wrapper_t key_other t) /\
   outcome (DbiWrapper_exists uint64_t wrapper_t key_other t')
     = outcome (DbiWrapper_exists uint64_t wrapper_t key_other t) /\
   (forall (other : string) (k : list byte),
      other <> c_str (m_dbName wrapper_t) ->
      stored t' other k = stored t other k)).
Proof.
  intros t t'.
  assert (H1 : DbiWrapper_put uint64_t uint64_t wrapper_t key1 val1 t = Ok tt t')
    by reflexivity.
  assert (H2 : sizeof uint64_t <> 0) by discriminate.
  assert (H3 : deref uint64_t key_other <> deref uint64_t key1) by discriminate.
  split; [auto |].
  exact (put_leaves_other_keys uint64_t uint64_t wrapper_t key1 val1 t t'
           uint64_t key_other H1 H2 H3).
Defined.

(** X14: in a read-only transaction [put] and [putArray] never return: whatever
    the wrapper's flags and whether or not the collection exists, they
    throw, and the transaction is left untouched. *)
Theorem put_in_readonly_txn_throws (K V : CType) (w : DbiWrapper)
    (key val : ptr) (count : Z) (t : txn_t) :
  t_rdonly t = true ->
  (exists e, DbiWrapper_put K V w key val t = Throw e t) /\
  (exists e, DbiWrapper_putArray K V w key val count t = Throw e t).
Proof.
  intros R.
  unfold DbiWrapper_put, DbiWrapper_putArray, bind. rewrite dbi_unfold.
  unfold Store.mdb_dbi_open.
  destruct (t_dbs t !! c_str (m_dbName w)) as [tbl |].
  - cbn. unfold Store.mdb_put. rewrite R. cbn. eauto.
  - destruct (Z.land (m_dbiflags w) MDB_CREATE =? 0); [cbn; eauto |].
    rewrite R. cbn. eauto.
Qed.

Lemma put_in_readonly_txn_throws_witness :
  let t := openReadTxn fresh_env in
  t_rdonly t = true /\
  ((exists e, DbiWrapper_put uint64_t uint64_t wrapper_t key1 val1 t = Throw e t) /\
   (exists e, DbiWrapper_putArray uint64_t uint64_t wrapper_t key1 arr_abc 3 t
                = Throw e t)).
Proof.
  intros t. split; [reflexivity |].
  exact (put_in_readonly_txn_throws uint64_t uint64_t wrapper_t key1 val1 3 t
           eq_refl).
Defined.

(* -------------------------------------------------------------------- *)
(** *** The typed maps: missing keys and layout checks *)

Lemma outcome_bind_throw {A C : Type} (c : M txn_t A) (k : A -> M txn_t C)
    (t : txn_t) (e : exn) :
  outcome (c t) = Some (inr e) -> outcome (bind c k t) = Some (inr e).
Proof.
  unfold bind. destruct (c t) as [a s | e' s |]; cbn; congruence.
Qed.

(** X15: the typed maps add nothing to a missing key: where the table-open step
    succeeds, [get] of both maps throws the not-found exception of
    [DbiWrapper::get] for a key without a value (it neither stops on an
    assertion nor returns a default), and the array map's [exists] returns
    whether the key has a value. *)
Theorem typed_maps_missing_key (K V : CType) (name : string)
    (dbp : MapDB_Pod_Pod) (dba : MapDB_Pod_PodArray) (key : ptr)
    (t t1 : txn_t) (h : string) :
  MapDB_Pod_Pod_new K V name = Some dbp ->
  MapDB_Pod_PodArray_new K V name = Some dba ->
  sizeof K <> 0 ->
  dbi (DbiWrapper_new name) t = Ok h t1 ->
  outcome (MapDB_Pod_PodArray_exists dba key t)
    = Some (inl (bool_decide (is_Some (stored t (c_str name) (deref K key))))) /\
  (stored t (c_str name) (deref K key) = None ->
   outcome (MapDB_Pod_Pod_get dbp key t)
     = Some (inr (not_found_error "DbiWrapper GET error")) /\
   outcome (MapDB_Pod_PodArray_get dba key t)
     = Some (inr (not_found_error "DbiWrapper GET error"))).
Proof.
  intros Hp Ha HK Hopen.
  apply MapDB_Pod_Pod_new_inv in Hp as (-> & _ & _).
  apply MapDB_Pod_PodArray_new_inv in Ha as (-> & _ & _).
  destruct (open_outcomes K (DbiWrapper_new name) key t t1 h HK Hopen)
    as (Hg & He).
  cbn [m_dbName DbiWrapper_new] in Hg, He.
  split.
  - unfold MapDB_Pod_PodArray_exists. cbn [pa_TAllKey pa_dbiWrap].
    rewrite He. reflexivity.
  - intros Hnone. rewrite Hnone in Hg.
    split; apply outcome_bind_throw; exact (f_equal outcome Hg).
Qed.

Lemma typed_maps_missing_key_witness :
  let t := openWriteTxn fresh_env in
  let dbp := mkPodPod uint64_t uint64_t (DbiWrapper_new "t") in
  let dba := mkPodArr uint64_t uint64_t (DbiWrapper_new "t") in
  (MapDB_Pod_Pod_new uint64_t uint64_t "t" = Some dbp /\
   MapDB_Pod_PodArray_new uint64_t uint64_t "t" = Some dba /\
   sizeof uint64_t <> 0 /\
   dbi (DbiWrapper_new "t") t = Ok "t" (created "t" t)) /\
  (outcome (MapDB_Pod_PodArray_exists dba key1 t)
     = Some (inl (bool_decide
                    (is_Some (stored t (c_str "t") (deref uint64_t key1))))) /\
   (stored t (c_str "t") (deref uint64_t key1) = None ->
    outcome (MapDB_Pod_Pod_get dbp key1 t)
      = Some (inr (not_found_error "DbiWrapper GET error")) /\
    outcome (MapDB_Pod_PodArray_get dba key1 t)
      = Some (inr (not_found_error "DbiWrapper GET error")))).
Proof.
  intros t dbp dba.
  assert (H3 : sizeof uint64_t <> 0) by discriminate.
  assert (H4 : dbi (DbiWrapper_new "t") t = Ok "t" (created "t" t))
    by reflexivity.
  split; [auto |].
  exact (typed_maps_missing_key uint64_t uint64_t "t" dbp dba key1 t
           (created "t" t) "t" eq_refl eq_refl H3 H4).
Defined.

(** [get] of the single-value map on a key that has a value. *)
Lemma podpod_get_stored (K V : CType) (name : string) (key : ptr)
    (t : txn_t) (v : list byte) :
  sizeof K <> 0 ->
  0 <= sizeof V < 2 ^ 64 ->
  Z.of_nat (length v) < 2 ^ 64 ->
  stored t (c_str name) (deref K key) = Some v ->
  MapDB_Pod_Pod_get (mkPodPod K V (DbiWrapper_new name)) key t
    = if (Z.of_nat (length v) =? sizeof V)
         && (t_map t (c_str name) (deref K key) mod alignof V =? 0)
      then Ok (mkPtr (t_map t (c_str name) (deref K key)) v) t
      else Abort.
Proof.
  intros HK HV Hv Hs.
  unfold MapDB_Pod_Pod_get, bind. cbn [pp_TAllKey pp_TAllVal pp_dbiWrap].
  rewrite (get_stored K (DbiWrapper_new name) key t v HK Hs).
  unfold asserted, asType, is_aligned_for, size, begin_, lnot.
  cbn [m_size m_data p_addr sizeof unsigned_char m_dbName DbiWrapper_new].
  rewrite Z.mul_1_l, wrap64_small by lia.
  rewrite (Z.eqb_sym (sizeof V)).
  destruct (Z.of_nat (length v) =? sizeof V); [| reflexivity].
  destruct (t_map t (c_str name) (deref K key) mod alignof V =? 0); reflexivity.
Qed.

(** [get] of the array map on a key that has a value. *)
Lemma podarr_get_stored (K E : CType) (name : string) (key : ptr)
    (t : txn_t) (v : list byte) :
  sizeof K <> 0 ->
  Z.of_nat (length v) < 2 ^ 64 ->
  stored t (c_str name) (deref K key) = Some v ->
  MapDB_Pod_PodArray_get (mkPodArr K E (DbiWrapper_new name)) key t
    = if (Z.of_nat (length v) mod sizeof E =? 0)
         && (t_map t (c_str name) (deref K key) mod alignof E =? 0)
      then Ok (mkSpan (mkPtr (t_map t (c_str name) (deref K key)) v)
                      (Z.of_nat (length v) / sizeof E)) t
      else Abort.
Proof.
  intros HK Hv Hs.
  unfold MapDB_Pod_PodArray_get, bind.
  cbn [pa_TAllKey pa_TAllValElem pa_dbiWrap].
  rewrite (get_stored K (DbiWrapper_new name) key t v HK Hs).
  unfold asserted, asSpan, is_aligned_for, lnot.
  cbn [m_size m_data p_addr sizeof unsigned_char m_dbName DbiWrapper_new].
  rewrite Z.mul_1_l, wrap64_small by lia.
  destruct (Z.of_nat (length v) mod sizeof E =? 0); [| reflexivity].
  destruct (t_map t (c_str name) (deref K key) mod alignof E =? 0); reflexivity.
Qed.

(** X16: reading a key through the single-value map checks the stored entry
    against the value type: when the stored length is exactly
    [sizeof(TAllVal)] and the mapped address is aligned, [get] returns a
    reference to the stored bytes; in every other case it stops on a failed
    assertion, it does not throw. *)
Theorem MapDB_Pod_Pod_get_checks_layout (K V : CType) (name : string)
    (db : MapDB_Pod_Pod) (key : ptr) (t : txn_t) (v : list byte) :
  MapDB_Pod_Pod_new K V name = Some db ->
  sizeof K <> 0 ->
  0 <= sizeof V < 2 ^ 64 ->
  Z.of_nat (length v) < 2 ^ 64 ->
  stored t (c_str name) (deref K key) = Some v ->
  MapDB_Pod_Pod_get db key t
    = if (Z.of_nat (length v) =? sizeof V)
         && (t_map t (c_str name) (deref K key) mod alignof V =? 0)
      then Ok (mkPtr (t_map t (c_str name) (deref K key)) v) t
      else Abort.
Proof.
  intros Hnew. apply MapDB_Pod_Pod_new_inv in Hnew as (-> & _ & _).
  apply podpod_get_stored.
Qed.

(** X17: reading a key through the array map checks the stored entry against
    the element type: when the stored length is a multiple of
    [sizeof(TAllValElem)] and the mapped address is aligned, [get] returns a
    view of length/size elements over the stored bytes; in every other case
    it stops on a failed assertion. *)
Theorem MapDB_Pod_PodArray_get_checks_layout (K E : CType) (name : string)
    (db : MapDB_Pod_PodArray) (key : ptr) (t : txn_t) (v : list byte) :
  MapDB_Pod_PodArray_new K E name = Some db ->
  sizeof K <> 0 ->
  Z.of_nat (length v) < 2 ^ 64 ->
  stored t (c_str name) (deref K key) = Some v ->
  MapDB_Pod_PodArray_get db key t
    = if (Z.of_nat (length v) mod sizeof E =? 0)
         && (t_map t (c_str name) (deref K key) mod alignof E =? 0)
      then Ok (mkSpan (mkPtr (t_map t (c_str name) (deref K key)) v)
                      (Z.of_nat (length v) / sizeof E)) t
      else Abort.
Proof.
  intros Hnew. apply MapDB_Pod_PodArray_new_inv in Hnew as (-> & _ & _).
  apply podarr_get_stored.
Qed.

Lemma MapDB_Pod_Pod_get_checks_layout_witness :
  let db := mkPodPod uint64_t uint64_t (DbiWrapper_new "t") in
  let t := written "t" (p_bytes key1) (p_bytes arr_abc)
             (created "t" (openWriteTxn fresh_env)) in
  (MapDB_Pod_Pod_new uint64_t uint64_t "t" = Some db /\
   sizeof uint64_t <> 0 /\ 0 <= sizeof uint64_t < 2 ^ 64 /\
   Z.of_nat (length (p_bytes arr_abc)) < 2 ^ 64 /\
   stored t (c_str "t") (deref uint64_t key1) = Some (p_bytes arr_abc)) /\
  MapDB_Pod_Pod_get db key1 t = Abort.
Proof.
  intros db t.
  assert (H2 : sizeof uint64_t <> 0) by discriminate.
  assert (H3 : 0 <= sizeof uint64_t < 2 ^ 64) by solve_closed.
  assert (H4 : Z.of_nat (length (p_bytes arr_abc)) < 2 ^ 64) by solve_closed.
  assert (H5 : stored t (c_str "t") (deref uint64_t key1) = Some (p_bytes arr_abc))
    by reflexivity.
  split; [auto 10 |].
  exact (MapDB_Pod_Pod_get_checks_layout uint64_t uint64_t "t" db key1 t
           (p_bytes arr_abc) eq_refl H2 H3 H4 H5).
Defined.

Lemma MapDB_Pod_PodArray_get_checks_layout_witness :
  let db := mkPodArr uint64_t three_uint64_t (DbiWrapper_new "t") in
  let t := written "t" (p_bytes key1) (p_bytes val1)
             (created "t" (openWriteTxn fresh_env)) in
  (MapDB_Pod_PodArray_new uint64_t three_uint64_t "t" = Some db /\
   sizeof uint64_t <> 0 /\
   Z.of_nat (length (p_bytes val1)) < 2 ^ 64 /\
   stored t (c_str "t") (deref uint64_t key1) = Some (p_bytes val1)) /\
  MapDB_Pod_PodArray_get db key1 t = Abort.
Proof.
  intros db t.
  assert (H2 : sizeof uint64_t <> 0) by discriminate.
  assert (H3 : Z.of_nat (length (p_bytes val1)) < 2 ^ 64) by solve_closed.
  assert (H4 : stored t (c_str "t") (deref uint64_t key1) = Some (p_bytes val1))
    by reflexivity.
  split; [auto 10 |].
  exact (MapDB_Pod_PodArray_get_checks_layout uint64_t three_uint64_t "t" db
           key1 t (p_bytes val1) eq_refl H2 H3 H4).
Defined.

(** X18: a value stored through the single-value map reads back through the
    array map of the same types and name as a view of exactly one element,
    the value itself. *)
Theorem single_value_is_array_of_one (K V : CType) (name : string)
    (dbp : MapDB_Pod_Pod) (dba : MapDB_Pod_PodArray) (key val : ptr)
    (t t' : txn_t) (flags : Z) :
  MapDB_Pod_Pod_new K V name = Some dbp ->
  MapDB_Pod_PodArray_new K V name = Some dba ->
  wf_type V ->
  sizeof V <= Z.of_nat (length (p_bytes val)) ->
  MapDB_Pod_Pod_put dbp key val t = Ok tt t' ->
  e_map (txn_commit t') (c_str name) (deref K key) mod alignof V = 0 ->
  let t2 := txn_begin (txn_commit t') flags in
  exists sp,
    MapDB_Pod_PodArray_get dba key t2 = Ok sp t2 /\
    size sp = 1 /\
    deref V <$> index V sp 0 = Some (deref V val).
Proof.
  intros Hp Ha (HV & _ & _) Hlen Hput Hal t2.
  apply MapDB_Pod_Pod_new_inv in Hp as (-> & _ & _).
  apply MapDB_Pod_PodArray_new_inv in Ha as (-> & _ & _).
  unfold MapDB_Pod_Pod_put in Hput.
  cbn [pp_TAllKey pp_TAllVal pp_dbiWrap] in Hput.
  apply put_Ok_inv in Hput as (Hs & R & _ & HK & _).
  change (m_dbName (DbiWrapper_new name)) with name in Hs.
  destruct (stored_after_commit t' flags (c_str name) (deref K key) R) as [Hs2 Hm2].
  fold t2 in Hs2, Hm2. rewrite Hs in Hs2.
  pose proof (deref_length V val ltac:(lia)) as Hl.
  assert (Hfit : Z.of_nat (length (deref V val)) < 2 ^ 64) by lia.
  rewrite (podarr_get_stored K V name key t2 _ HK Hfit Hs2).
  rewrite Hm2, Hl, Hal, Z.mod_same, Z.div_same by lia. cbn.
  eexists. split; [reflexivity |]. split; [reflexivity |].
  unfold index. cbn [m_size m_data]. cbn.
  f_equal. unfold deref at 1, ptr_add. cbn [p_bytes].
  rewrite Z.mul_0_l. cbn. apply take_ge. lia.
Qed.

Lemma single_value_is_array_of_one_witness :
  let dbp := mkPodPod uint64_t uint64_t (DbiWrapper_new "t") in
  let dba := mkPodArr uint64_t uint64_t (DbiWrapper_new "t") in
  let t := openWriteTxn fresh_env in
  let t' := written "t" (p_bytes key1) (p_bytes val1) (created "t" t) in
  (MapDB_Pod_Pod_new uint64_t uint64_t "t" = Some dbp /\
   MapDB_Pod_PodArray_new uint64_t uint64_t "t" = Some dba /\
   wf_type uint64_t /\
   sizeof uint64_t <= Z.of_nat (length (p_bytes val1)) /\
   MapDB_Pod_Pod_put dbp key1 val1 t = Ok tt t' /\
   e_map (txn_commit t') (c_str "t") (deref uint64_t key1) mod alignof uint64_t = 0) /\
  exists sp,
    MapDB_Pod_PodArray_get dba key1 (openReadTxn (txn_commit t'))
      = Ok sp (openReadTxn (txn_commit t')) /\
    size sp = 1 /\
    deref uint64_t <$> index uint64_t sp 0 = Some (deref uint64_t val1).
Proof.
  intros dbp dba t t'.
  assert (H3 : wf_type uint64_t) by solve_closed.
  assert (H4 : sizeof uint64_t <= Z.of_nat (length (p_bytes val1)))
    by solve_closed.
  assert (H5 : MapDB_Pod_Pod_put dbp key1 val1 t = Ok tt t') by reflexivity.
  assert (H6 : e_map (txn_commit t') (c_str "t") (deref uint64_t key1)
               mod alignof uint64_t = 0) by reflexivity.
  split; [auto 10 |].
  exact (single_value_is_array_of_one uint64_t uint64_t "t" dbp dba key1 val1
           t t' MDB_RDONLY eq_refl eq_refl H3 H4 H5 H6).
Defined.

(* -------------------------------------------------------------------- *)
(** *** The AutoPadded maps *)

(** X19: the AutoPadded maps take any POD key and value type, of any size and
    of any alignment: each of the two classes compiles exactly when both
    types are POD. *)
Theorem AutoPadded_maps_accept_any_pod (TKey TVal : CType) (name : string) :
  align_ok TKey -> align_ok TVal ->
  (is_Some (MapDB_AutoPadded_Pod_Pod_new TKey TVal name) <->
   is_pod TKey = true /\ is_pod TVal = true) /\
  (is_Some (MapDB_AutoPadded_Pod_PodArray_new TKey TVal name) <->
   is_pod TKey = true /\ is_pod TVal = true).
Proof.
  intros AK AV.
  unfold MapDB_AutoPadded_Pod_Pod_new, MapDB_AutoPadded_Pod_PodArray_new.
  unfold MapDB_Pod_Pod_new, MapDB_Pod_PodArray_new. cbv zeta.
  rewrite (EightPadded_is_valid TKey AK), (EightPadded_is_valid TVal AV).
  destruct (is_pod TKey), (is_pod TVal); cbn; split; split;
    intros H; eauto; try (destruct H; discriminate);
    destruct H as [? ?]; discriminate.
Qed.

(** [MapDB_AutoPadded_Pod_Pod<long double, char>] is instantiated, and so
    is the array map. *)
Lemma AutoPadded_maps_accept_any_pod_witness :
  (align_ok long_double_t /\ align_ok char_t) /\
  (is_Some (MapDB_AutoPadded_Pod_Pod_new long_double_t char_t "t") <->
   is_pod long_double_t = true /\ is_pod char_t = true) /\
  (is_Some (MapDB_AutoPadded_Pod_PodArray_new long_double_t char_t "t") <->
   is_pod long_double_t = true /\ is_pod char_t = true).
Proof.
  assert (H1 : align_ok long_double_t) by (right; solve_closed).
  assert (H2 : align_ok char_t) by (left; solve_closed).
  split; [auto |].
  exact (AutoPadded_maps_accept_any_pod long_double_t char_t "t" H1 H2).
Defined.

Lemma deref_temporary (T : CType) (storage : ptr) (d : list byte) :
  Z.of_nat (length (p_bytes storage)) = sizeof (EightPadded T) ->
  Z.of_nat (length d) = sizeof T ->
  deref (EightPadded T) (temporary T (EightPadded T) storage d)
    = d ++ drop (length d) (replicate (Z.to_nat (sizeof (EightPadded T))) x00).
Proof.
  intros Hs Hd. unfold deref, temporary. cbn [p_bytes].
  rewrite take_ge by (rewrite <- (Nat2Z.id (length _)),
                        (EightPadded_ctor_length T _ d Hs Hd); lia).
  rewrite EightPadded_ctor_bytes by assumption.
  replace (length (p_bytes storage)) with (Z.to_nat (sizeof (EightPadded T)))
    by lia.
  reflexivity.
Qed.

Lemma MapDB_AutoPadded_Pod_Pod_new_inv (TKey TVal : CType) (name : string)
    (db : MapDB_AutoPadded_Pod_Pod) :
  MapDB_AutoPadded_Pod_Pod_new TKey TVal name = Some db ->
  db = mkAutoPodPod TKey TVal (EightPadded TKey) (EightPadded TVal)
         (mkPodPod (EightPadded TKey) (EightPadded TVal)
                   (DbiWrapper_new name)).
Proof.
  unfold MapDB_AutoPadded_Pod_Pod_new. cbv zeta.
  destruct (MapDB_Pod_Pod_new (EightPadded TKey) (EightPadded TVal) name)
    as [m |] eqn:E; [| discriminate].
  apply MapDB_Pod_Pod_new_inv in E as (-> & _ & _). cbn.
  intros [= <-]. reflexivity.
Qed.

(** X20: the round trip of the AutoPadded single-value map: a key and a value
    of any POD types, stored with [put] in a transaction that is then
    committed, are found again by [get] in any later transaction, which
    returns a reference to the original value; what the storage of the
    temporaries held before plays no part, for the key in particular.  The
    store has to map the values of the collection at addresses aligned for
    the padded value type, which are the multiples of 8 for a value type
    aligned at most 8. *)
Theorem MapDB_AutoPadded_Pod_Pod_roundtrip (TKey TVal : CType) (name : string)
    (db : MapDB_AutoPadded_Pod_Pod) (tmpK tmpV tmpK2 key val : ptr)
    (t t' : txn_t) (flags : Z) :
  MapDB_AutoPadded_Pod_Pod_new TKey TVal name = Some db ->
  Z.of_nat (length (deref TKey key)) = sizeof TKey ->
  Z.of_nat (length (deref TVal val)) = sizeof TVal ->
  Z.of_nat (length (p_bytes tmpK)) = sizeof (app_PadKey db) ->
  Z.of_nat (length (p_bytes tmpK2)) = sizeof (app_PadKey db) ->
  Z.of_nat (length (p_bytes tmpV)) = sizeof (app_PadVal db) ->
  sizeof (app_PadVal db) < 2 ^ 64 ->
  MapDB_AutoPadded_Pod_Pod_put db tmpK tmpV key val t = Ok tt t' ->
  (forall k, e_map (txn_commit t') (c_str name) k
             mod alignof (app_PadVal db) = 0) ->
  let t2 := txn_begin (txn_commit t') flags in
  exists r, MapDB_AutoPadded_Pod_Pod_get db tmpK2 key t2 = Ok r t2 /\
            deref TVal r = deref TVal val.
Proof.
  intros Hnew HkL HvL HtK HtK2 HtV Hfit Hput Hal t2.
  apply MapDB_AutoPadded_Pod_Pod_new_inv in Hnew as ->.
  cbn [app_PadKey app_PadVal] in *.
  set (PK := EightPadded TKey) in *. set (PV := EightPadded TVal) in *.
  unfold MapDB_AutoPadded_Pod_Pod_put, MapDB_Pod_Pod_put in Hput.
  cbn [app_TKey app_TVal app_PadKey app_PadVal app_db
       pp_TAllKey pp_TAllVal pp_dbiWrap] in Hput.
  apply put_Ok_inv in Hput as (Hs & R & _ & HK & _).
  change (m_dbName (DbiWrapper_new name)) with name in Hs.
  unfold PK, PV in Hs.
  rewrite (deref_temporary TKey tmpK _ HtK HkL) in Hs.
  rewrite (deref_temporary TVal tmpV _ HtV HvL) in Hs.
  fold PK PV in Hs.
  set (kb := deref TKey key ++ _) in Hs. set (vb := deref TVal val ++ _) in Hs.
  destruct (stored_after_commit t' flags (c_str name) kb R) as [Hs2 Hm2].
  fold t2 in Hs2, Hm2. rewrite Hs in Hs2.
  pose proof (EightPadded_sizeof_ge TVal) as Hle. fold PV in Hle.
  assert (Hvb : Z.of_nat (length vb) = sizeof PV).
  { unfold vb. rewrite length_app, length_drop, length_replicate. lia. }
  unfold MapDB_AutoPadded_Pod_Pod_get.
  cbn [app_TKey app_TVal app_PadKey app_PadVal app_db].
  unfold bind at 1.
  assert (Hk2 : deref PK (temporary TKey PK tmpK2 (deref TKey key)) = kb)
    by exact (deref_temporary TKey tmpK2 _ HtK2 HkL).
  rewrite (podpod_get_stored PK PV name _ t2 vb HK ltac:(lia) ltac:(lia))
    by (rewrite Hk2; exact Hs2).
  rewrite Hk2, Hm2, Hvb, Hal, !Z.eqb_refl. cbn.
  eexists. split; [reflexivity |].
  unfold EightPadded_deref_ref, deref at 1. cbn [p_bytes].
  unfold vb. rewrite take_app_length' by lia. reflexivity.
Qed.

(** The self test: key [123] and value ['a'] through
    [MapDB_AutoPadded_Pod_Pod<int32_t,char>{"mdb_p_p"}]. *)
Lemma MapDB_AutoPadded_Pod_Pod_roundtrip_witness :
  let db := mkAutoPodPod int32_t char_t EightPadded_int32 EightPadded_char
              (mkPodPod EightPadded_int32 EightPadded_char
                        (DbiWrapper_new "mdb_p_p")) in
  let t := openWriteTxn fresh_env in
  let t' := written "mdb_p_p" (p_bytes key_123 ++ replicate 4 x00)
              (p_bytes chr_a ++ replicate 7 x00) (created "mdb_p_p" t) in
  (MapDB_AutoPadded_Pod_Pod_new int32_t char_t "mdb_p_p" = Some db /\
   Z.of_nat (length (deref int32_t key_123)) = sizeof int32_t /\
   Z.of_nat (length (deref char_t chr_a)) = sizeof char_t /\
   Z.of_nat (length (p_bytes stack_k)) = sizeof (app_PadKey db) /\
   Z.of_nat (length (p_bytes stack_v)) = sizeof (app_PadKey db) /\
   Z.of_nat (length (p_bytes stack_v)) = sizeof (app_PadVal db) /\
   sizeof (app_PadVal db) < 2 ^ 64 /\
   MapDB_AutoPadded_Pod_Pod_put db stack_k stack_v key_123 chr_a t = Ok tt t' /\
   (forall k, e_map (txn_commit t') (c_str "mdb_p_p") k
              mod alignof (app_PadVal db) = 0)) /\
  exists r,
    MapDB_AutoPadded_Pod_Pod_get db stack_v key_123 (openReadTxn (txn_commit t'))
      = Ok r (openReadTxn (txn_commit t')) /\
    deref char_t r = deref char_t chr_a.
Proof.
  intros db t t'.
  assert (H7 : sizeof (app_PadVal db) < 2 ^ 64) by solve_closed.
  assert (H8 : MapDB_AutoPadded_Pod_Pod_put db stack_k stack_v key_123 chr_a t
               = Ok tt t') by reflexivity.
  assert (H9 : forall k, e_map (txn_commit t') (c_str "mdb_p_p") k
                         mod alignof (app_PadVal db) = 0)
    by (intros k; reflexivity).
  split; [repeat split; assumption || reflexivity |].
  exact (MapDB_AutoPadded_Pod_Pod_roundtrip int32_t char_t "mdb_p_p" db
           stack_k stack_v stack_v key_123 chr_a t t' MDB_RDONLY
           eq_refl eq_refl eq_refl eq_refl eq_refl eq_refl H7 H8 H9).
Defined.

Section PushBack.
Variables (T : CType) (tmp slot : nat -> list byte).
Hypothesis Htmp : forall i, Z.of_nat (length (tmp i)) = sizeof (EightPadded T).
Hypothesis Hslot : forall i, Z.of_nat (length (slot i)) = sizeof (EightPadded T).

Lemma pushed_element (i : nat) (o : list byte) :
  Z.of_nat (length o) = sizeof T ->
  let pushed := EightPadded_copy T (slot i)
                  (EightPadded_ctor T (EightPadded T) (tmp i) o) in
  length pushed = Z.to_nat (sizeof (EightPadded T)) /\
  EightPadded_get T pushed = o.
Proof.
  intros Ho pushed.
  pose proof (EightPadded_sizeof_ge T) as Hle.
  assert (E : EightPadded_get T (EightPadded_ctor T (EightPadded T) (tmp i) o)
              = o).
  { unfold EightPadded_get. rewrite EightPadded_ctor_bytes by auto.
    apply take_app_length'. lia. }
  unfold pushed, EightPadded_copy, assign_data. rewrite E.
  replace (Z.to_nat (sizeof T)) with (length o) by lia.
  rewrite firstn_all. split.
  - rewrite length_app, length_drop. specialize (Hslot i). lia.
  - unfold EightPadded_get.
    replace (Z.to_nat (sizeof T)) with (length o) by lia.
    apply take_app_length.
Qed.

Lemma push_back_all_spec (range toPut : list (list byte)) :
  Forall (fun x => Z.of_nat (length x) = sizeof T) range ->
  exists pushed,
    push_back_all T (EightPadded T) tmp slot range toPut = toPut ++ pushed /\
    length pushed = length range /\
    Forall (fun x => length x = Z.to_nat (sizeof (EightPadded T))) pushed /\
    forall (i : nat) (o : list byte),
      range !! i = Some o ->
      exists e, pushed !! i = Some e /\ EightPadded_get T e = o.
Proof.
  intros Hr. revert toPut.
  induction Hr as [| o rest Ho _ IH]; intros toPut; cbn.
  - exists []. rewrite app_nil_r. repeat split; [constructor |].
    intros i o Hi. discriminate.
  - destruct (pushed_element (length toPut) o Ho) as [Hlen Hget].
    set (p1 := EightPadded_copy T _ _) in *.
    destruct (IH (toPut ++ [p1])) as (rest' & Hv & Hl & Hf & He).
    exists (p1 :: rest'). rewrite Hv, <- app_assoc. cbn.
    split; [reflexivity |]. split; [lia |].
    split; [constructor; assumption |].
    intros [| i] x Hi; cbn in Hi |- *.
    + injection Hi as <-. eauto.
    + apply He, Hi.
Qed.

End PushBack.

Lemma MapDB_AutoPadded_Pod_PodArray_new_inv (TKey TValElem : CType)
    (name : string) (db : MapDB_AutoPadded_Pod_PodArray) :
  MapDB_AutoPadded_Pod_PodArray_new TKey TValElem name = Some db ->
  db = mkAutoPodArr TKey TValElem (EightPadded TKey) (EightPadded TValElem)
         (mkPodArr (EightPadded TKey) (EightPadded TValElem)
                   (DbiWrapper_new name)).
Proof.
  unfold MapDB_AutoPadded_Pod_PodArray_new. cbv zeta.
  destruct (MapDB_Pod_PodArray_new (EightPadded TKey) (EightPadded TValElem)
              name) as [m |] eqn:E; [| discriminate].
  apply MapDB_Pod_PodArray_new_inv in E as (-> & _ & _). cbn.
  intros [= <-]. reflexivity.
Qed.

(** X21: the round trip of the AutoPadded array map: a non-empty range of
    elements of any POD type, stored with [put] under a key of any POD type
    in a transaction that is then committed, is read back by [get] in any
    later transaction as a view with one padded element per element of the
    range, in order, each of which unwraps to the original; this holds
    whatever the temporaries' storage and the vector's buffer held before.
    The store has to map the values of the collection at addresses aligned
    for the padded element type, which are the multiples of 8 for an
    element type aligned at most 8. *)
Theorem MapDB_AutoPadded_Pod_PodArray_roundtrip (TKey TValElem : CType)
    (name : string) (db : MapDB_AutoPadded_Pod_PodArray)
    (tmpK tmpK2 key : ptr) (tmp slot : nat -> list byte) (buf : Z)
    (range : list (list byte)) (t t' : txn_t) (flags : Z) :
  MapDB_AutoPadded_Pod_PodArray_new TKey TValElem name = Some db ->
  0 < sizeof TValElem ->
  Z.of_nat (length (deref TKey key)) = sizeof TKey ->
  Forall (fun x => Z.of_nat (length x) = sizeof TValElem) range ->
  range <> [] ->
  Z.of_nat (length (p_bytes tmpK)) = sizeof (apa_PadKey db) ->
  Z.of_nat (length (p_bytes tmpK2)) = sizeof (apa_PadKey db) ->
  (forall i, Z.of_nat (length (tmp i)) = sizeof (apa_PadValElem db)) ->
  (forall i, Z.of_nat (length (slot i)) = sizeof (apa_PadValElem db)) ->
  sizeof (apa_PadValElem db) * Z.of_nat (length range) < 2 ^ 64 ->
  MapDB_AutoPadded_Pod_PodArray_put db tmpK tmp slot buf key range t
    = Ok tt t' ->
  (forall k, e_map (txn_commit t') (c_str name) k
             mod alignof (apa_PadValElem db) = 0) ->
  let t2 := txn_begin (txn_commit t') flags in
  exists sp,
    MapDB_AutoPadded_Pod_PodArray_get db tmpK2 key t2 = Ok sp t2 /\
    size sp = Z.of_nat (length range) /\
    forall (i : nat) (x : list byte),
      range !! i = Some x ->
      deref TValElem
        <$> (EightPadded_deref_ref
               <$> index (apa_PadValElem db) sp (Z.of_nat i)) = Some x.
Proof.
  intros Hnew HT HkL Hr _ HtK HtK2 Htmp Hslot Hfit Hput Hal t2.
  apply MapDB_AutoPadded_Pod_PodArray_new_inv in Hnew as ->.
  cbn [apa_PadKey apa_PadValElem] in *.
  destruct (push_back_all_spec TValElem tmp slot Htmp Hslot range [] Hr)
    as (pushed & Hv & HpL & HpF & HpE).
  cbn [app] in Hv.
  unfold MapDB_AutoPadded_Pod_PodArray_put, MapDB_Pod_PodArray_put in Hput.
  cbn [apa_TKey apa_TValElem apa_PadKey apa_PadValElem apa_db
       pa_TAllKey pa_TAllValElem pa_dbiWrap] in Hput.
  rewrite Hv in Hput.
  apply putArray_Ok_inv in Hput as (Hs & R & _ & HK).
  change (m_dbName (DbiWrapper_new name)) with name in Hs.
  cbn [p_bytes] in Hs.
  rewrite (deref_temporary TKey tmpK _ HtK HkL) in Hs.
  set (PK := EightPadded TKey) in *. set (PV := EightPadded TValElem) in *.
  set (kb := deref TKey key ++ _) in Hs.
  pose proof (EightPadded_sizeof_ge TValElem) as Hle. fold PV in Hle.
  pose proof (concat_uniform_length _ pushed HpF) as Hcl.
  assert (Hbytes : Z.of_nat (length (concat pushed))
                   = Z.of_nat (length range) * sizeof PV)
    by (rewrite Hcl, HpL; nia).
  rewrite HpL, wrap64_small, take_ge in Hs by nia.
  destruct (stored_after_commit t' flags (c_str name) kb R) as [Hs2 Hm2].
  fold t2 in Hs2, Hm2. rewrite Hs in Hs2.
  assert (Hk2 : deref PK (temporary TKey PK tmpK2 (deref TKey key)) = kb)
    by exact (deref_temporary TKey tmpK2 _ HtK2 HkL).
  unfold MapDB_AutoPadded_Pod_PodArray_get.
  cbn [apa_TKey apa_TValElem apa_PadKey apa_PadValElem apa_db].
  rewrite (podarr_get_stored PK PV name _ t2 (concat pushed) HK ltac:(nia))
    by (rewrite Hk2; exact Hs2).
  rewrite Hk2, Hm2, Hbytes, Hal, Z.mod_mul, Z.div_mul by lia. cbn.
  eexists. split; [reflexivity |]. split; [reflexivity |].
  intros i x Hi.
  assert (Hlt : (i < length range)%nat) by (apply lookup_lt_is_Some; eauto).
  destruct (HpE i x Hi) as (e & He & Hge).
  unfold index. cbn [m_size m_data].
  destruct (Z.ltb_spec (Z.of_nat i) (Z.of_nat (length range))); [| lia]. cbn.
  f_equal. unfold EightPadded_deref_ref, deref, ptr_add. cbn [p_bytes].
  replace (Z.to_nat (Z.of_nat i * sizeof PV)) with (i * Z.to_nat (sizeof PV))%nat
    by nia.
  rewrite <- Hge. unfold EightPadded_get.
  rewrite <- (concat_uniform_chunk _ pushed i e HpF He).
  rewrite take_take. f_equal. lia.
Qed.

(** The self test: key [22] and the characters ['a'], ['b'], ['c'] through
    [MapDB_AutoPadded_Pod_PodArray<int32_t, char>{"mdb_p_parr"}]. *)
Lemma MapDB_AutoPadded_Pod_PodArray_roundtrip_witness :
  let db := mkAutoPodArr int32_t char_t EightPadded_int32 EightPadded_char
              (mkPodArr EightPadded_int32 EightPadded_char
                        (DbiWrapper_new "mdb_p_parr")) in
  let tmp := fun _ : nat => dirty8 in
  let slot := fun _ : nat => other8 in
  let t := openWriteTxn fresh_env in
  let t' := written "mdb_p_parr" (p_bytes key_22 ++ replicate 4 x00)
              (concat [[x61] ++ drop 1 other8; [x62] ++ drop 1 other8;
                       [x63] ++ drop 1 other8])
              (created "mdb_p_parr" t) in
  (MapDB_AutoPadded_Pod_PodArray_new int32_t char_t "mdb_p_parr" = Some db /\
   0 < sizeof char_t /\
   Z.of_nat (length (deref int32_t key_22)) = sizeof int32_t /\
   Forall (fun x => Z.of_nat (length x) = sizeof char_t) chars_abc /\
   chars_abc <> [] /\
   Z.of_nat (length (p_bytes stack_k)) = sizeof (apa_PadKey db) /\
   Z.of_nat (length (p_bytes stack_v)) = sizeof (apa_PadKey db) /\
   (forall i, Z.of_nat (length (tmp i)) = sizeof (apa_PadValElem db)) /\
   (forall i, Z.of_nat (length (slot i)) = sizeof (apa_PadValElem db)) /\
   sizeof (apa_PadValElem db) * Z.of_nat (length chars_abc) < 2 ^ 64 /\
   MapDB_AutoPadded_Pod_PodArray_put db stack_k tmp slot 9000 key_22
     chars_abc t = Ok tt t' /\
   (forall k, e_map (txn_commit t') (c_str "mdb_p_parr") k
              mod alignof (apa_PadValElem db) = 0)) /\
  exists sp,
    MapDB_AutoPadded_Pod_PodArray_get db stack_v key_22
      (openReadTxn (txn_commit t')) = Ok sp (openReadTxn (txn_commit t')) /\
    size sp = 3 /\
    forall (i : nat) (x : list byte),
      chars_abc !! i = Some x ->
      deref char_t
        <$> (EightPadded_deref_ref
               <$> index (apa_PadValElem db) sp (Z.of_nat i)) = Some x.
Proof.
  intros db tmp slot t t'.
  assert (H2 : 0 < sizeof char_t) by reflexivity.
  assert (H4 : Forall (fun x => Z.of_nat (length x) = sizeof char_t) chars_abc)
    by (repeat constructor).
  assert (H5 : chars_abc <> []) by discriminate.
  assert (H8 : forall i, Z.of_nat (length (tmp i)) = sizeof (apa_PadValElem db))
    by (intros i; reflexivity).
  assert (H9 : forall i, Z.of_nat (length (slot i)) = sizeof (apa_PadValElem db))
    by (intros i; reflexivity).
  assert (H10 : sizeof (apa_PadValElem db) * Z.of_nat (length chars_abc) < 2 ^ 64)
    by reflexivity.
  assert (H11 : MapDB_AutoPadded_Pod_PodArray_put db stack_k tmp slot 9000
                  key_22 chars_abc t = Ok tt t') by reflexivity.
  assert (H12 : forall k, e_map (txn_commit t') (c_str "mdb_p_parr") k
                          mod alignof (apa_PadValElem db) = 0)
    by (intros k; reflexivity).
  split; [repeat split; assumption || reflexivity |].
  exact (MapDB_AutoPadded_Pod_PodArray_roundtrip int32_t char_t "mdb_p_parr" db
           stack_k stack_v key_22 tmp slot 9000 chars_abc t t' MDB_RDONLY
           eq_refl H2 eq_refl H4 H5 eq_refl eq_refl H8 H9 H10 H11 H12).
Defined.

Lemma putArray_is_put_of_buffer_witness :
  let t := openWriteTxn fresh_env in
  sizeof three_uint64_t = wrap64 (sizeof uint64_t * 3) /\
  (txn_after (DbiWrapper_putArray uint64_t uint64_t wrapper_t key1 arr_abc 3 t)
     = txn_after (DbiWrapper_put uint64_t three_uint64_t wrapper_t key1 arr_abc t) /\
   (forall t',
      DbiWrapper_putArray uint64_t uint64_t wrapper_t key1 arr_abc 3 t = Ok tt t'
      <-> DbiWrapper_put uint64_t three_uint64_t wrapper_t key1 arr_abc t
            = Ok tt t')).
Proof.
  intros t. split; [reflexivity |].
  exact (putArray_is_put_of_buffer (B := backend) uint64_t uint64_t
           three_uint64_t wrapper_t key1 arr_abc 3 t eq_refl).
Defined.

(** X22: reinterpreting a span of bytes, which is what the library does with
    every value it reads: when the byte count is a multiple of the new
    element size and the data is aligned, [asSpan] yields count/size
    elements, and element [i] of the new view is made of the bytes from
    [i * size] on of the old one. *)
Theorem asSpan_bytes_elements (TNew : CType) (sp : LmdbSpan) (i : Z) :
  0 < sizeof TNew ->
  0 <= m_size sp < 2 ^ 64 ->
  m_size sp mod sizeof TNew = 0 ->
  p_addr (m_data sp) mod alignof TNew = 0 ->
  0 <= i < m_size sp / sizeof TNew ->
  exists sp',
    asSpan unsigned_char TNew sp = Some sp' /\
    size sp' = m_size sp / sizeof TNew /\
    deref TNew <$> index TNew sp' i
      = Some (take (Z.to_nat (sizeof TNew))
                   (drop (Z.to_nat (i * sizeof TNew)) (p_bytes (m_data sp)))).
Proof.
  intros Hs Hb Hm Ha Hi. eexists. split; [| split].
  - apply asSpan_Some; [| exact Ha].
    cbn [sizeof unsigned_char]. rewrite Z.mul_1_l, wrap64_small by exact Hb.
    exact Hm.
  - reflexivity.
  - unfold index. cbn [m_size m_data].
    destruct (Z.ltb_spec i (m_size sp / sizeof TNew)); [| lia].
    reflexivity.
Qed.

Lemma asSpan_bytes_elements_witness :
  let sp := mkSpan (mkPtr 4096 (p_bytes arr_abc)) 24 in
  (0 < sizeof uint64_t /\ 0 <= m_size sp < 2 ^ 64 /\
   m_size sp mod sizeof uint64_t = 0 /\
   p_addr (m_data sp) mod alignof uint64_t = 0 /\
   0 <= 1 < m_size sp / sizeof uint64_t) /\
  exists sp',
    asSpan unsigned_char uint64_t sp = Some sp' /\
    size sp' = m_size sp / sizeof uint64_t /\
    deref uint64_t <$> index uint64_t sp' 1
      = Some (take (Z.to_nat (sizeof uint64_t))
                   (drop (Z.to_nat (1 * sizeof uint64_t)) (p_bytes (m_data sp)))).
Proof.
  intros sp.
  assert (H : 0 < sizeof uint64_t /\ 0 <= m_size sp < 2 ^ 64 /\
              m_size sp mod sizeof uint64_t = 0 /\
              p_addr (m_data sp) mod alignof uint64_t = 0 /\
              0 <= 1 < m_size sp / sizeof uint64_t) by solve_closed.
  split; [exact H |]. destruct H as (H1 & H2 & H3 & H4 & H5).
  exact (asSpan_bytes_elements uint64_t sp 1 H1 H2 H3 H4 H5).
Defined.

End StoreMore.

